(** * StamPLC MQTT command client: request/response correlation

    A shallow embedding of [examples/mqtt_command_client.py]
    (class [StamPLCClient]): the two paho callbacks [_on_connect] and
    [_on_message], which run on the network thread started by
    [loop_start], and the two blocking methods [connect] and
    [send_command], which run on the calling thread and poll the
    attributes the callbacks write.

    The two threads share [self.connected] and [self.pending_requests].
    The embedding is an interleaving machine: a schedule says which
    thread performs its next atomic step, every step makes at most one
    access to the shared attributes, and the clock is a component of
    the state, in microseconds.  [time.time()] returns the binary64
    number nearest to the clock's seconds. *)

From Stdlib Require Import ZArith String List Lia.
From Stdlib Require Import Floats.SpecFloat.
From stdpp Require Import base option list strings pretty gmap.

Local Open Scope Z_scope.
Set Warnings "-register-all".

(** ** Python values *)

(** What [json.loads] returns, and what the client passes around:
    [JNull] is Python's [None], [JObj] a dict with its items in insertion
    order, [JFloat m e] the binary64 number [m * 2^e]. *)
Inductive json : Type :=
| JNull
| JBool (b : bool)
| JInt (n : Z)
| JFloat (m e : Z)
| JStr (s : string)
| JArr (items : list json)
| JObj (fields : list (string * json)).

(** The exception classes the client can meet; all of them derive from
    [Exception]. *)
Inductive exn : Type :=
| JSONDecodeError
| UnicodeDecodeError
| TypeError
| KeyError
| OSError
| UnicodeEncodeError.

Definition is_Exception (e : exn) : bool := true.

Definition is_JSONDecodeError (e : exn) : bool :=
  match e with JSONDecodeError => true | _ => false end.

Inductive res (A : Type) : Type :=
| Ok (a : A)
| Raise (e : exn).
Arguments Ok {A} a.
Arguments Raise {A} e.

(** [x is None] *)
Definition is_None (v : json) : bool :=
  match v with JNull => true | _ => false end.

(** Truth value of a Python object, as [params or {}] tests it. *)
Definition truthy (v : json) : bool :=
  match v with
  | JNull => false
  | JBool b => b
  | JInt n => negb (n =? 0)
  | JFloat m _ => negb (m =? 0)
  | JStr s => negb (String.eqb s "")
  | JArr items => match items with [] => false | _ => true end
  | JObj fields => match fields with [] => false | _ => true end
  end.

(** [d.get(k)] on the items of a dict. *)
Fixpoint dict_get (fields : list (string * json)) (k : string) : option json :=
  match fields with
  | [] => None
  | (k', v) :: rest => if String.eqb k' k then Some v else dict_get rest k
  end.

Definition is_str (k : string) (v : json) : bool :=
  match v with JStr s => String.eqb s k | _ => false end.

(** ['id' in data]: key membership on a dict, substring test on a str,
    element test on a list, [TypeError] on anything else. *)
Definition contains_id (data : json) : res bool :=
  match data with
  | JObj fields => Ok (match dict_get fields "id" with Some _ => true | None => false end)
  | JStr s => Ok (match String.index 0 "id" s with Some _ => true | None => false end)
  | JArr items => Ok (existsb (is_str "id") items)
  | _ => Raise TypeError
  end.

(** [data['id']]: a dict lookup; a str or a list cannot be indexed by a
    str, the other values cannot be indexed at all. *)
Definition getitem_id (data : json) : res json :=
  match data with
  | JObj fields =>
      match dict_get fields "id" with Some v => Ok v | None => Raise KeyError end
  | _ => Raise TypeError
  end.

(** [k in self.pending_requests].  Every key of the table is a str (its
    only other writer is [send_command], with ["req-..."]), so a number,
    a bool or [None] is never found; a list or a dict is unhashable.
    On success the str that was found is returned. *)
Definition pending_contains (pending : gmap string json) (k : json)
  : res (option string) :=
  match k with
  | JStr s => Ok (match pending !! s with Some _ => Some s | None => None end)
  | JArr _ | JObj _ => Raise TypeError
  | _ => Ok None
  end.

(** ** The client and its surroundings *)

(** Calls made on the paho client object. *)
Inductive call : Type :=
| T_connect
| T_loop_start
| T_subscribe (topic : string)
| T_publish (topic : string) (message : json).

(** Lines written by [print]. *)
Inductive line : Type :=
| L_connected
| L_subscribed
| L_connection_failed (rc : Z)
| L_response (data : json)
| L_telemetry (data : json)
| L_attributes (data : json)
| L_parse_error (payload : string)
| L_error (e : exn)
| L_connect_timeout
| L_connection_error (e : exn)
| L_not_connected
| L_sent (cmd_type request_id : string)
| L_timeout (request_id : string).

(** [connected] and [pending_requests] are the attributes of [self] that
    change after [__init__]; [wire] is the sequence of calls made on
    [self.client], [console] what was printed, [clock] the value of
    [time.time()] in microseconds and [reachable] whether
    [client.connect] can open its socket. *)
Record state : Type := {
  connected : bool;
  pending_requests : gmap string json;
  wire : list call;
  console : list line;
  clock : Z;
  reachable : bool
}.

Definition set_connected (b : bool) (st : state) : state :=
  {| connected := b; pending_requests := pending_requests st; wire := wire st;
     console := console st; clock := clock st; reachable := reachable st |}.

Definition set_pending (p : gmap string json) (st : state) : state :=
  {| connected := connected st; pending_requests := p; wire := wire st;
     console := console st; clock := clock st; reachable := reachable st |}.

Definition emit (c : call) (st : state) : state :=
  {| connected := connected st; pending_requests := pending_requests st;
     wire := wire st ++ [c];
     console := console st; clock := clock st; reachable := reachable st |}.

Definition print (l : line) (st : state) : state :=
  {| connected := connected st; pending_requests := pending_requests st;
     wire := wire st; console := console st ++ [l];
     clock := clock st; reachable := reachable st |}.

Definition sleep (d : Z) (st : state) : state :=
  {| connected := connected st; pending_requests := pending_requests st;
     wire := wire st; console := console st;
     clock := clock st + d; reachable := reachable st |}.

(** [__init__]: the topics are set once and never reassigned. *)
Definition rpc_request_prefix : string := "v1/devices/me/rpc/request".
Definition rpc_response_topic : string := "v1/devices/me/rpc/response/+".
Definition telemetry_topic : string := "v1/devices/me/telemetry".
Definition attributes_topic : string := "v1/devices/me/attributes".
Definition rpc_response_prefix : string := "v1/devices/me/rpc/response/".

Definition init (t : Z) (up : bool) : state :=
  {| connected := false; pending_requests := ∅; wire := []; console := [];
     clock := t; reachable := up |}.

(** An inbound message: its topic, its raw payload and the outcome of
    [json.loads(msg.payload.decode())] on it (the JSON grammar is the
    standard library's). *)
Record MQTTMessage : Type := {
  topic : string;
  payload : string;
  decoded : res json
}.

(** ** A state-and-exception monad for the callback bodies *)

Definition M (A : Type) : Type := state → state * res A.

Definition ret {A} (a : A) : M A := λ st, (st, Ok a).
Definition lift {A} (r : res A) : M A := λ st, (st, r).
Definition bind {A B} (m : M A) (f : A → M B) : M B :=
  λ st, match m st with
        | (st', Ok a) => f a st'
        | (st', Raise e) => (st', Raise e)
        end.
Definition get {A} (f : state → A) : M A := λ st, (st, Ok (f st)).
Definition modify (f : state → state) : M unit := λ st, (f st, Ok tt).

Notation "'do' x <- m ; k" := (bind m (λ x, k))
  (at level 10, x name, m at level 100, k at level 200).

(** ** [_on_message] *)

(** Lines 58 to 64: decode, classify by topic, print, and decide whether
    line 65 is to run.  The result is the assignment line 65 will make,
    if any. *)
Definition on_message_body (msg : MQTTMessage) : M (option (string * json)) :=
  do data <- lift (decoded msg);
  if String.prefix rpc_response_prefix (topic msg) then
    do _ <- modify (print (L_response data));
    do has <- lift (contains_id data);
    if (has : bool) then
      do k <- lift (getitem_id data);
      do pending <- get pending_requests;
      do found <- lift (pending_contains pending k);
      match found with
      | Some s => ret (Some (s, data))
      | None => ret None
      end
    else ret None
  else if String.eqb (topic msg) telemetry_topic then
    do _ <- modify (print (L_telemetry data)); ret None
  else if String.eqb (topic msg) attributes_topic then
    do _ <- modify (print (L_attributes data)); ret None
  else ret None.

(** The two [except] clauses of lines 73 to 76.  An exception that
    neither clause catches leaves the callback. *)
Definition on_message_check (msg : MQTTMessage) : M (option (string * json)) :=
  λ st, match on_message_body msg st with
        | (st', Ok o) => (st', Ok o)
        | (st', Raise e) =>
            if is_JSONDecodeError e then (print (L_parse_error (payload msg)) st', Ok None)
            else if is_Exception e then (print (L_error e) st', Ok None)
            else (st', Raise e)
        end.

(** Line 65: [self.pending_requests[data['id']] = data]. *)
Definition on_message_store (o : option (string * json)) (st : state) : state :=
  match o with
  | Some (k, data) => set_pending (<[k := data]> (pending_requests st)) st
  | None => st
  end.

Definition _on_message (st : state) (msg : MQTTMessage) : state * res unit :=
  match on_message_check msg st with
  | (st', Ok o) => (on_message_store o st', Ok tt)
  | (st', Raise e) => (st', Raise e)
  end.

(** ** [_on_connect] *)

Definition subscriptions : list string :=
  [rpc_response_topic; telemetry_topic; attributes_topic].

(** Lines 43 to 45, or line 54. *)
Definition on_connect_flag (rc : Z) (st : state) : state * bool :=
  if rc =? 0 then (set_connected true (print L_connected st), true)
  else (print (L_connection_failed rc) st, false).

(** Lines 48 to 50, one call each. *)
Definition on_connect_subscribe (t : string) (st : state) : state :=
  emit (T_subscribe t) st.


(** ** [send_command] *)

(** The arguments of one call; [timeout] is in microseconds, like the
    clock. *)
Record args : Type := {
  cmd_type : string;
  params : json;
  wait_response : bool;
  timeout : Z
}.

(** *** Readings of the clock

    Python's float is binary64: 53 bits of precision, round to nearest,
    ties to even.  [binary64 m e] is the float nearest to [m * 2^e]. *)
Definition binary64 (m e : Z) : spec_float := binary_normalize 53 1024 m e false.

(** [time.time()] when the clock shows [t] microseconds. *)
Definition time_time (t : Z) : spec_float :=
  SFdiv 53 1024 (binary64 t 0) (binary64 1000000 0).

(** [int(x)] for a finite float: the digits after the point are cut. *)
Definition int (x : spec_float) : Z :=
  match x with
  | S754_finite s m e =>
      let n := if 0 <=? e then Z.pos m * 2 ^ e else Z.pos m / 2 ^ (- e) in
      if s then - n else n
  | _ => 0
  end.

(** [int(time.time() * 1000)] *)
Definition millis (t : Z) : Z :=
  int (SFmul 53 1024 (time_time t) (binary64 1000 0)).

(** Line 110: [f"req-{int(time.time() * 1000)}"]. *)
Definition request_id (t : Z) : string :=
  "req-" +:+ pretty (millis t).

(** Line 128 on the readings: [time.time() - start_time < timeout],
    the clock showing [t] and [start_time] having been read at
    [start]. *)
Definition before_deadline (start t timeout : Z) : bool :=
  SFltb (SFsub 53 1024 (time_time t) (time_time start)) (time_time timeout).

(** Line 128.  A reading is off the clock by less than a quarter of a
    microsecond as long as the clock is below 2^32 seconds, and the
    difference of two readings by less than half a microsecond: the
    readings decide the test as the clock does, unless the clock is
    exactly [timeout] past [start].  There the readings decide, and the
    loop can go round once more. *)
Definition still_waiting (start t timeout : Z) : bool :=
  (t - start <? timeout) || ((t - start =? timeout) && before_deadline start t timeout).

Arguments binary64 : simpl never.
Arguments time_time : simpl never.
Arguments millis : simpl never.
Arguments request_id : simpl never.
Arguments before_deadline : simpl never.
Arguments still_waiting : simpl never.

(** Lines 111 to 114. *)
Definition message (a : args) : json :=
  JObj [("method", JStr (cmd_type a));
        ("params", if truthy (params a) then params a else JObj [])].

(** Line 121. *)
Definition rpc_topic (rid : string) : string :=
  rpc_request_prefix +:+ "/" +:+ rid.

(** Program points of [send_command], named after what the next step
    does; the locals alive at a point are its arguments. *)
Inductive sc_pc : Type :=
| SC_entry                                         (* 106 *)
| SC_genid                                         (* 110-114 *)
| SC_register (rid : string)                       (* 117-118 *)
| SC_publish (rid : string)                        (* 121-123 *)
| SC_mark (rid : string)                           (* 126-127 *)
| SC_test (rid : string) (start_time : Z)          (* 128 *)
| SC_poll (rid : string) (start_time : Z)          (* 129 *)
| SC_fetch (rid : string) (start_time : Z)         (* 130 *)
| SC_remove (rid : string) (response : json)       (* 131-132 *)
| SC_sleep (rid : string) (start_time : Z)         (* 133 *)
| SC_expire (rid : string)                         (* 136 *)
| SC_report (rid : string)                         (* 137-138 *)
| SC_return (v : json)
| SC_raise (e : exn).

Definition poll_interval : Z := 100000.

(** One atomic step of [send_command].  A subscript or a [del] on a key
    that is not in the dict raises [KeyError], which nothing in
    [send_command] catches.  [time.sleep(0.1)] is one step, which moves
    the clock by [poll_interval]; what the network thread does while
    the caller sleeps is scheduled before or after that step, and any
    longer sleep is the scheduler's [A_tick]. *)
Definition send_command_step (a : args) (pc : sc_pc) (st : state) : state * sc_pc :=
  match pc with
  | SC_entry =>
      if connected st then (st, SC_genid)
      else (print L_not_connected st, SC_return JNull)
  | SC_genid => (st, SC_register (request_id (clock st)))
  | SC_register rid =>
      if wait_response a
      then (set_pending (<[rid := JNull]> (pending_requests st)) st, SC_publish rid)
      else (st, SC_publish rid)
  | SC_publish rid =>
      let st' := print (L_sent (cmd_type a) rid)
                       (emit (T_publish (rpc_topic rid) (message a)) st) in
      if wait_response a then (st', SC_mark rid)
      else (st', SC_return (JObj [("status", JStr "sent")]))
  | SC_mark rid => (st, SC_test rid (clock st))
  | SC_test rid start_time =>
      if still_waiting start_time (clock st) (timeout a) then (st, SC_poll rid start_time)
      else (st, SC_expire rid)
  | SC_poll rid start_time =>
      match pending_requests st !! rid with
      | None => (st, SC_raise KeyError)
      | Some v => if is_None v then (st, SC_sleep rid start_time)
                  else (st, SC_fetch rid start_time)
      end
  | SC_fetch rid start_time =>
      match pending_requests st !! rid with
      | None => (st, SC_raise KeyError)
      | Some v => (st, SC_remove rid v)
      end
  | SC_remove rid response =>
      match pending_requests st !! rid with
      | None => (st, SC_raise KeyError)
      | Some _ => (set_pending (delete rid (pending_requests st)) st, SC_return response)
      end
  | SC_sleep rid start_time => (sleep poll_interval st, SC_test rid start_time)
  | SC_expire rid =>
      match pending_requests st !! rid with
      | None => (st, SC_raise KeyError)
      | Some _ => (set_pending (delete rid (pending_requests st)) st, SC_report rid)
      end
  | SC_report rid => (print (L_timeout rid) st, SC_return JNull)
  | SC_return v => (st, SC_return v)
  | SC_raise e => (st, SC_raise e)
  end.

(** ** [connect] *)

(** Program points of [connect]; [timeout] is the local of line 85, in
    microseconds. *)
Inductive cn_pc : Type :=
| CN_entry                        (* 81 *)
| CN_loop_start                   (* 82-85 *)
| CN_test (timeout : Z)           (* 86 *)
| CN_sleep (timeout : Z)          (* 87-88 *)
| CN_final                        (* 90-94 *)
| CN_return (b : bool).

(** One atomic step of [connect].  The [except] clause of lines 95 to
    97 is reached when [client.connect] cannot open its socket. *)
Definition connect_step (pc : cn_pc) (st : state) : state * cn_pc :=
  match pc with
  | CN_entry =>
      if reachable st then (emit T_connect st, CN_loop_start)
      else (print (L_connection_error OSError) st, CN_return false)
  | CN_loop_start => (emit T_loop_start st, CN_test 10000000)
  | CN_test timeout =>
      if negb (connected st) && (0 <? timeout) then (st, CN_sleep timeout)
      else (st, CN_final)
  | CN_sleep timeout => (sleep 500000 st, CN_test (timeout - 500000))
  | CN_final =>
      if negb (connected st) then (print L_connect_timeout st, CN_return false)
      else (st, CN_return true)
  | CN_return b => (st, CN_return b)
  end.

(** ** The two threads *)

(** What the calling thread is executing. *)
Inductive caller : Type :=
| In_connect (pc : cn_pc)
| In_send (a : args) (pc : sc_pc).

(** What the network thread is executing: nothing, [_on_message] between
    lines 64 and 65, or [_on_connect] with some [subscribe] calls still
    to make. *)
Inductive net_pc : Type :=
| N_idle
| N_store (k : string) (data : json)
| N_subscribe (todo : list string).

Record config : Type := {
  shared : state;
  main : caller;
  net : net_pc
}.

(** The scheduler's choices: the calling thread takes a step, the
    network thread starts a callback for a received PUBLISH or CONNACK,
    the network thread continues its callback, or time passes. *)
Inductive action : Type :=
| A_main
| A_recv (msg : MQTTMessage)
| A_connack (rc : Z)
| A_net
| A_tick (d : N).

(** One step of the machine.  The network thread runs one callback at
    a time: a message that arrives while it is busy is not taken up by
    this step (the schedule may offer it again). *)
Definition step (c : config) (x : action) : config :=
  match x with
  | A_main =>
      match main c with
      | In_connect pc =>
          let '(st, pc') := connect_step pc (shared c) in
          {| shared := st; main := In_connect pc'; net := net c |}
      | In_send a pc =>
          let '(st, pc') := send_command_step a pc (shared c) in
          {| shared := st; main := In_send a pc'; net := net c |}
      end
  | A_recv msg =>
      match net c with
      | N_idle =>
          match on_message_check msg (shared c) with
          | (st, Ok (Some (k, data))) =>
              {| shared := st; main := main c; net := N_store k data |}
          | (st, _) => {| shared := st; main := main c; net := N_idle |}
          end
      | _ => c
      end
  | A_connack rc =>
      match net c with
      | N_idle =>
          match on_connect_flag rc (shared c) with
          | (st, true) => {| shared := st; main := main c; net := N_subscribe subscriptions |}
          | (st, false) => {| shared := st; main := main c; net := N_idle |}
          end
      | _ => c
      end
  | A_net =>
      match net c with
      | N_idle => c
      | N_store k data =>
          {| shared := on_message_store (Some (k, data)) (shared c);
             main := main c; net := N_idle |}
      | N_subscribe (t :: todo) =>
          {| shared := on_connect_subscribe t (shared c);
             main := main c; net := N_subscribe todo |}
      | N_subscribe [] =>
          {| shared := print L_subscribed (shared c); main := main c; net := N_idle |}
      end
  | A_tick d =>
      {| shared := sleep (Z.of_N d) (shared c); main := main c; net := net c |}
  end.

Definition run (sched : list action) (c : config) : config :=
  fold_left step sched c.

(** A whole callback, uninterrupted. *)
Definition deliver (msg : MQTTMessage) : list action := [A_recv msg; A_net].
Definition connack (rc : Z) : list action := [A_connack rc; A_net; A_net; A_net; A_net].

(** The state in which a call starts. *)
Definition calling (a : args) (st : state) : config :=
  {| shared := st; main := In_send a SC_entry; net := N_idle |}.

Definition connecting (st : state) : config :=
  {| shared := st; main := In_connect CN_entry; net := N_idle |}.

(** The value a finished call returned. *)
Definition returned (c : config) : option json :=
  match main c with
  | In_send _ (SC_return v) => Some v
  | In_connect (CN_return b) => Some (JBool b)
  | _ => None
  end.
(** ** What [_on_message] does, in one equation *)

Inductive topic_class : Type := RpcResponse | Telemetry | Attribute | Unrecognized.

(** The [if]/[elif] chain of lines 60, 67 and 70. *)
Definition classify (t : string) : topic_class :=
  if String.prefix rpc_response_prefix t then RpcResponse
  else if String.eqb t telemetry_topic then Telemetry
  else if String.eqb t attributes_topic then Attribute
  else Unrecognized.

(** The [id] of a payload that decodes to an object with a str [id]. *)
Definition payload_id (msg : MQTTMessage) : option string :=
  match decoded msg with
  | Ok (JObj fields) =>
      match dict_get fields "id" with Some (JStr s) => Some s | _ => None end
  | _ => None
  end.

(** The slot a message resolves: the one its payload names, when the
    topic is an RPC response topic and the slot is registered. *)
Definition route (pending : gmap string json) (msg : MQTTMessage)
  : option (string * json) :=
  match classify (topic msg), payload_id msg, decoded msg with
  | RpcResponse, Some s, Ok data =>
      match pending !! s with Some _ => Some (s, data) | None => None end
  | _, _, _ => None
  end.

(** Two states that differ in what was printed only. *)
Definition quiet (st st' : state) : Prop :=
  connected st' = connected st ∧ pending_requests st' = pending_requests st ∧
  wire st' = wire st ∧ clock st' = clock st ∧ reachable st' = reachable st.




(** ** Schedules *)

Definition is_main (x : action) : bool :=
  match x with A_main => true | _ => false end.

(** How many steps of its own the calling thread gets in a schedule. *)
Fixpoint main_steps (sched : list action) : nat :=
  match sched with
  | [] => 0%nat
  | x :: rest => if is_main x then S (main_steps rest) else main_steps rest
  end.

(** The action is not the arrival of a message whose payload carries
    [rid]. *)
Definition not_for (rid : string) (x : action) : Prop :=
  match x with A_recv msg => payload_id msg ≠ Some rid | _ => True end.

(** The network thread is not between lines 64 and 65 for slot [rid]. *)
Definition net_clear (rid : string) (n : net_pc) : Prop :=
  match n with N_store k _ => k ≠ rid | _ => True end.

(** The program points of the wait loop of lines 128 to 133. *)
Definition in_loop (rid : string) (start_time : Z) (pc : sc_pc) : Prop :=
  pc = SC_test rid start_time ∨ pc = SC_poll rid start_time ∨ pc = SC_sleep rid start_time.

(** ** Sample data *)

Module Sample.

Definition get_gps : args :=
  {| cmd_type := "get_gps"; params := JNull; wait_response := true;
     timeout := 30000000 |}.

Definition reboot : args :=
  {| cmd_type := "reboot"; params := JObj [("delay_ms", JInt 5000)];
     wait_response := true; timeout := 30000000 |}.

(** A connected client at one second past the epoch. *)
Definition ready : state := set_connected true (init 1000000 true).

Definition position : json :=
  JObj [("id", JStr "req-1000"); ("status", JStr "success");
        ("data", JObj [("latitude", JFloat 37 0); ("longitude", JFloat (-122) 0);
                       ("altitude", JInt 10); ("satellites", JInt 7);
                       ("valid", JBool true)])].

Definition position' : json :=
  JObj [("id", JStr "req-1000"); ("status", JStr "error"); ("data", JNull)].

Definition response (seg : string) (data : json) : MQTTMessage :=
  {| topic := rpc_response_prefix +:+ seg; payload := ""; decoded := Ok data |}.

Definition garbage : MQTTMessage :=
  {| topic := rpc_response_prefix +:+ "req-1000"; payload := "{";
     decoded := Raise JSONDecodeError |}.


Definition odd : json :=
  JObj [("id", JStr "req-1000"); ("status", JInt 17); ("data", JStr "none")].

(** One turn of the wait loop that finds the slot empty: test, poll,
    sleep. *)
Definition turn : list action := [A_main; A_main; A_main].

Fixpoint turns (n : nat) : list action :=
  match n with O => [] | S n => turn ++ turns n end.

(** Lines 106 to 127. *)
Definition preamble : list action := [A_main; A_main; A_main; A_main; A_main].

(** Two requests outstanding. *)
Definition two_pending : state :=
  set_pending (<["req-2000" := JNull]> (<["req-1000" := JNull]> ∅)) ready.

(** The first response to [req-1000] stored and not yet fetched. *)
Definition stored : state :=
  set_pending (<["req-1000" := position]> ∅) ready.

End Sample.


(** ** Where a waiting call stands *)

(** The call has polled [data] out of its slot and is [n] steps away
    from returning it. *)
Definition fetching (a : args) (rid : string) (data : json) (n : nat) (c : config) : Prop :=
  net_clear rid (net c) ∧
  match n with
  | 3%nat => ∃ start_time, main c = In_send a (SC_poll rid start_time) ∧
                           pending_requests (shared c) !! rid = Some data
  | 2%nat => ∃ start_time, main c = In_send a (SC_fetch rid start_time) ∧
                           pending_requests (shared c) !! rid = Some data
  | 1%nat => main c = In_send a (SC_remove rid data) ∧
             pending_requests (shared c) !! rid = Some data
  | 0%nat => main c = In_send a (SC_return data) ∧
             pending_requests (shared c) !! rid = None
  | _ => False
  end.

(** The call is in its loop for [rid], or has found its deadline passed
    and is about to delete the slot (line 136). *)
Definition awaiting (rid : string) (start_time : Z) (pc : sc_pc) : Prop :=
  in_loop rid start_time pc ∨ pc = SC_expire rid.

(** Program points from which the call neither polls nor deletes its
    slot on the timeout path any more. *)
Definition leaving (pc : sc_pc) : Prop :=
  match pc with
  | SC_fetch _ _ | SC_remove _ _ | SC_report _ | SC_return _ | SC_raise _ => True
  | _ => False
  end.

(** The network thread is between lines 64 and 65 with [data] for the
    slot [rid], and the calling thread goes on. *)
Definition storing (a : args) (rid : string) (start_time : Z) (data : json)
    (c : config) : Prop :=
  net c = N_store rid data ∧
  ∃ pc, main c = In_send a pc ∧ (awaiting rid start_time pc ∨ leaving pc).

(** Line 65 has run: the slot holds [data] for as long as the call
    awaits it. *)
Definition held (a : args) (rid : string) (start_time : Z) (data : json)
    (c : config) : Prop :=
  net_clear rid (net c) ∧
  ∃ pc, main c = In_send a pc ∧
    ((awaiting rid start_time pc ∧ pending_requests (shared c) !! rid = Some data)
     ∨ leaving pc).

(** The call has found its deadline passed while its slot is still
    registered, and is [n] steps away from returning [None]. *)
Definition dropping (a : args) (rid : string) (n : nat) (c : config) : Prop :=
  net_clear rid (net c) ∧
  match n with
  | 2%nat => main c = In_send a (SC_expire rid) ∧
             is_Some (pending_requests (shared c) !! rid)
  | 1%nat => main c = In_send a (SC_report rid) ∧
             pending_requests (shared c) !! rid = None
  | 0%nat => main c = In_send a (SC_return JNull) ∧
             pending_requests (shared c) !! rid = None ∧
             L_timeout rid ∈ console (shared c)
  | _ => False
  end.

(** The slot of the waiting call is empty and the call is at most [n]
    steps of its own away from giving up, once its deadline has passed. *)
Definition timing_out (a : args) (rid : string) (start_time : Z) (n : nat) (c : config)
  : Prop :=
  net_clear rid (net c) ∧
  match n with
  | 5%nat => main c = In_send a (SC_poll rid start_time) ∧
             pending_requests (shared c) !! rid = Some JNull
  | 4%nat => main c = In_send a (SC_sleep rid start_time) ∧
             pending_requests (shared c) !! rid = Some JNull
  | 3%nat => main c = In_send a (SC_test rid start_time) ∧
             pending_requests (shared c) !! rid = Some JNull
  | 2%nat => main c = In_send a (SC_expire rid) ∧
             pending_requests (shared c) !! rid = Some JNull
  | 1%nat => main c = In_send a (SC_report rid) ∧
             pending_requests (shared c) !! rid = None
  | 0%nat => main c = In_send a (SC_return JNull) ∧
             pending_requests (shared c) !! rid = None ∧
             L_timeout rid ∈ console (shared c)
  | _ => False
  end.

(** An upper bound on the polls a waiting call can still make when the
    clock shows [t]: one for every sleep of [poll_interval] that ends
    before the deadline or at the deadline, and one now unless the
    deadline has passed. *)
Definition turns_left (a : args) (start_time t : Z) : nat :=
  Z.to_nat ((start_time + timeout a - t + poll_interval) / poll_interval).

(** An upper bound on the steps a call that [timing_out] puts at rank
    [m] still takes before it returns, [tl] polls being left. *)
Definition cost (m tl : nat) : nat :=
  match m with
  | 5%nat => match tl with O => 5 | _ => 3 * tl + 2 end
  | 4%nat => match tl with O => 4 | _ => 3 * tl + 1 end
  | 3%nat => 3 * tl + 3
  | _ => m
  end.

(** The slot stays empty and the call returns within [n] steps of its
    own. *)
Definition expires_within (a : args) (rid : string) (start_time : Z) (n : nat)
    (c : config) : Prop :=
  ∃ m, timing_out a rid start_time m c ∧
       (cost m (turns_left a start_time (clock (shared c))) ≤ n)%nat.

Module Runs.

Import Sample.

(** [get_gps] is called on a connected client, registers [req-1000],
    publishes, and has polled once in vain. *)
Definition waiting : config := run (preamble ++ turn) (calling get_gps ready).

(** [get_gps] polls in vain for 29.9 seconds; 50 ms after its last
    poll it is about to sleep for the 300th time. *)
Definition last_nap : list action :=
  preamble ++ turns 299 ++ [A_main; A_main; A_tick 50000].

(** The rest of the call after that: sleep, test, [del], print. *)
Definition wake_up : list action := [A_main; A_main; A_main; A_main].

(** A call that polls in vain until its 30 seconds are over. *)
Definition in_vain : list action := preamble ++ turns 300 ++ [A_main; A_main; A_main].

(** A second client, one second later. *)
Definition ready' : state := set_connected true (init 2000000 true).

(** Two responses to [req-1000] arrive between two polls. *)
Definition twice : list action :=
  preamble ++ turn
    ++ deliver (response "req-1000" position)
    ++ deliver (response "req-1000" position')
    ++ [A_main; A_main; A_main; A_main].

End Runs.

(** ** Where a call that has not published yet stands *)

(** The id a call holds between lines 110 and 123 was made by line 110,
    and by the time the call is about to publish the id is registered. *)
Definition registering (a : args) (c : config) : Prop :=
  ∃ pc, main c = In_send a pc ∧
    match pc with
    | SC_register rid => ∃ t, rid = request_id t
    | SC_publish rid =>
        (∃ t, rid = request_id t) ∧ is_Some (pending_requests (shared c) !! rid)
    | _ => True
    end.

(** [connect] has returned [True] only if the flag is set. *)
Definition connect_sound (c : config) : Prop :=
  ∃ pc, main c = In_connect pc ∧ (pc = CN_return true → connected (shared c) = true).

Module Races.

Import Sample.



(** A second call, by another thread, on the state the first call
    shares. *)
Definition second_call (a : args) (c : config) : config := calling a (shared c).

End Races.

(** ** Steps a call still needs *)

(** The polls a call allows itself in all: one when it begins to
    wait, and one after every sleep of [poll_interval] that ends before
    its deadline or at it. *)
Definition polls (a : args) : nat := turns_left a 0 0.

(** The sleeps of half a second that [connect] still has before the
    local [timeout] of line 85 is used up. *)
Definition naps (t : Z) : nat := Z.to_nat ((t + 499999) / 500000).

(** An upper bound on the steps of its own that the calling thread
    takes before the call it is in is over. *)
Definition budget (c : config) : nat :=
  match main c with
  | In_send a pc =>
      match pc with
      | SC_entry => 3 * polls a + 8
      | SC_genid => 3 * polls a + 7
      | SC_register _ => 3 * polls a + 6
      | SC_publish _ => 3 * polls a + 5
      | SC_mark _ => 3 * polls a + 4
      | SC_test _ s => cost 3 (turns_left a s (clock (shared c)))
      | SC_poll _ s => cost 5 (turns_left a s (clock (shared c)))
      | SC_sleep _ s => cost 4 (turns_left a s (clock (shared c)))
      | SC_fetch _ _ => 2
      | SC_remove _ _ => 1
      | SC_expire _ => 2
      | SC_report _ => 1
      | SC_return _ => 0
      | SC_raise _ => 0
      end
  | In_connect pc =>
      match pc with
      | CN_entry => 44
      | CN_loop_start => 43
      | CN_test t => 2 * naps t + 2
      | CN_sleep t => 2 * naps (t - 500000) + 3
      | CN_final => 1
      | CN_return _ => 0
      end
  end.

(** The call is over: it has returned, or an exception has left it. *)
Definition finished (c : config) : Prop :=
  match main c with
  | In_send _ (SC_return _) | In_send _ (SC_raise _) | In_connect (CN_return _) => True
  | _ => False
  end.

(** ** What a call can hold and return *)

(** The value is a response whose payload carries [rid]. *)
Definition carries (rid : string) (v : json) : Prop :=
  ∃ fields, v = JObj fields ∧ dict_get fields "id" = Some (JStr rid).

(** A registered slot: empty, or holding a response that carries the
    id of the slot. *)
Definition slot_ok (rid : string) (o : option json) : Prop :=
  ∃ v, o = Some v ∧ (v = JNull ∨ carries rid v).

(** The call has published its request under [rid]. *)
Definition published (a : args) (rid : string) (st : state) : Prop :=
  T_publish (rpc_topic rid) (message a) ∈ wire st.

(** What line 140 returns. *)
Definition sent : json := JObj [("status", JStr "sent")].

(** What the network thread is about to store carries the key it is
    about to store it under. *)
Definition sound_net (n : net_pc) : Prop :=
  match n with N_store k data => carries k data | _ => True end.

(** What holds of the shared state at each program point of a call. *)
Definition sound_pc (a : args) (pc : sc_pc) (st : state) : Prop :=
  match pc with
  | SC_entry | SC_genid | SC_register _ => True
  | SC_publish rid =>
      wait_response a = true → slot_ok rid (pending_requests st !! rid)
  | SC_mark rid | SC_test rid _ | SC_poll rid _ | SC_sleep rid _ | SC_fetch rid _ =>
      wait_response a = true ∧ published a rid st ∧
      slot_ok rid (pending_requests st !! rid)
  | SC_remove rid v =>
      published a rid st ∧ is_Some (pending_requests st !! rid) ∧
      (v = JNull ∨ carries rid v)
  | SC_expire rid => is_Some (pending_requests st !! rid)
  | SC_report _ => True
  | SC_return v =>
      v = JNull ∨ (wait_response a = false ∧ v = sent) ∨
      ∃ rid, carries rid v ∧ published a rid st
  | SC_raise _ => False
  end.

Definition sound (c : config) : Prop :=
  sound_net (net c) ∧
  match main c with
  | In_send a pc => sound_pc a pc (shared c)
  | In_connect _ => True
  end.


(** A call that does not wait, on a connected client, [n] steps before
    it returns; [D] is the set of the registered ids. *)
Definition forgetting (a : args) (D : gset string) (n : nat) (c : config) : Prop :=
  connected (shared c) = true ∧
  dom (pending_requests (shared c)) = D ∧
  match net c with N_store k _ => k ∈ D | _ => True end ∧
  match n with
  | 4%nat => main c = In_send a SC_entry
  | 3%nat => main c = In_send a SC_genid
  | 2%nat => ∃ rid, main c = In_send a (SC_register rid)
  | 1%nat => ∃ rid, main c = In_send a (SC_publish rid)
  | 0%nat => main c = In_send a (SC_return sent) ∧ ∃ rid, published a rid (shared c)
  | _ => False
  end.

(** ** [disconnect] *)

(** The calls [disconnect] makes on the paho client. *)
Inductive teardown : Type :=
| T_loop_stop
| T_disconnect.

(** Lines 101 and 102: the two calls, and no attribute of [self] is
    assigned. *)
Definition disconnect (st : state) : state * list teardown :=
  (st, [T_loop_stop; T_disconnect]).

(** [connect] has returned [False] only after printing why. *)
Definition connect_explained (c : config) : Prop :=
  ∃ pc, main c = In_connect pc ∧
    (pc = CN_return false →
     L_connect_timeout ∈ console (shared c) ∨
     L_connection_error OSError ∈ console (shared c)).

(** The action is not the arrival of a CONNACK that accepts the
    connection. *)
Definition no_ack (x : action) : Prop :=
  match x with A_connack rc => rc ≠ 0 | _ => True end.

(** [connect] on a client that is never acknowledged: [w0] and [c0] are
    the wire and the clock when it was called. *)
Definition giving_up (w0 : list call) (c0 : Z) (c : config) : Prop :=
  connected (shared c) = false ∧
  match net c with N_subscribe _ => False | _ => True end ∧
  ∃ pc, main c = In_connect pc ∧
    match pc with
    | CN_entry => reachable (shared c) = true ∧ wire (shared c) = w0 ∧ c0 ≤ clock (shared c)
    | CN_loop_start => wire (shared c) = w0 ++ [T_connect] ∧ c0 ≤ clock (shared c)
    | CN_test t | CN_sleep t =>
        wire (shared c) = w0 ++ [T_connect; T_loop_start] ∧
        c0 + 10000000 - t ≤ clock (shared c)
    | CN_final =>
        wire (shared c) = w0 ++ [T_connect; T_loop_start] ∧
        c0 + 10000000 ≤ clock (shared c)
    | CN_return b =>
        b = false ∧ wire (shared c) = w0 ++ [T_connect; T_loop_start] ∧
        c0 + 10000000 ≤ clock (shared c) ∧ L_connect_timeout ∈ console (shared c)
    end.

(** ** The command wrappers *)

(** The defaults of [send_command]: [wait_response=True], [timeout=30]. *)
Definition default_timeout : Z := 30000000.

Definition command (cmd : string) (p : json) : args :=
  {| cmd_type := cmd; params := p; wait_response := true; timeout := default_timeout |}.

(** Lines 142 to 181: the call of [send_command] each wrapper makes. *)
Definition get_gps : args := command "get_gps" JNull.

Definition get_stats : args := command "get_stats" JNull.

Definition get_logs (lines log_type : json) : args :=
  command "get_logs" (JObj [("lines", lines); ("type", log_type)]).

Definition update_config (config : json) : args := command "config_update" config.

Definition ota_update (firmware_url version md5 : json) : args :=
  {| cmd_type := "ota_update";
     params := JObj ([("url", firmware_url); ("version", version)]
                       ++ if truthy md5 then [("md5", md5)] else []);
     wait_response := true;
     timeout := 120000000 |}.

Definition reboot (delay_ms : json) : args :=
  command "reboot" (JObj [("delay_ms", delay_ms)]).

Definition set_interval (interval_type value_ms : json) : args :=
  command "set_interval" (JObj [("type", interval_type); ("value_ms", value_ms)]).

(** A call of one of the wrappers. *)
Inductive request : Type :=
| Get_gps
| Get_stats
| Get_logs (lines log_type : json)
| Update_config (config : json)
| Ota_update (firmware_url version md5 : json)
| Reboot (delay_ms : json)
| Set_interval (interval_type value_ms : json).

Definition wrapper (r : request) : args :=
  match r with
  | Get_gps => get_gps
  | Get_stats => get_stats
  | Get_logs lines log_type => get_logs lines log_type
  | Update_config config => update_config config
  | Ota_update firmware_url version md5 => ota_update firmware_url version md5
  | Reboot delay_ms => reboot delay_ms
  | Set_interval interval_type value_ms => set_interval interval_type value_ms
  end.

Definition is_object (v : json) : bool :=
  match v with JObj _ => true | _ => false end.

(** ** [main] *)

Module Cli.

(** What [parse_args] returns: the subcommand with its options, an
    option that was not given being [None]. *)
Inductive cli : Type :=
| Cli_gps
| Cli_stats
| Cli_logs (lines : Z)
| Cli_config (gps_interval : option Z) (mqtt_host : option string)
             (mqtt_port : option Z) (apn : option string)
| Cli_ota (url version : string) (md5 : option string)
| Cli_reboot (delay : Z)
| Cli_interval (type : string) (value : Z)
| Cli_monitor
| Cli_none.

Definition of_int (o : option Z) : json :=
  match o with Some n => JInt n | None => JNull end.

Definition of_str (o : option string) : json :=
  match o with Some s => JStr s | None => JNull end.

(** Lines 269 to 277: the dict [config], an option being copied when
    it is true. *)
Definition build_config (gps_interval : option Z) (mqtt_host : option string)
    (mqtt_port : option Z) (apn : option string) : list (string * json) :=
  (if truthy (of_int gps_interval) then [("gps_interval", of_int gps_interval)] else [])
  ++ (if truthy (of_str mqtt_host) then [("mqtt_host", of_str mqtt_host)] else [])
  ++ (if truthy (of_int mqtt_port) then [("mqtt_port", of_int mqtt_port)] else [])
  ++ (if truthy (of_str apn) then [("apn", of_str apn)] else []).

(** The wrapper [main] calls, if any. *)
Definition requested (c : cli) : option request :=
  match c with
  | Cli_gps => Some Get_gps
  | Cli_stats => Some Get_stats
  | Cli_logs lines => Some (Get_logs (JInt lines) (JStr "all"))
  | Cli_config g h p a =>
      if truthy (JObj (build_config g h p a))
      then Some (Update_config (JObj (build_config g h p a)))
      else None
  | Cli_ota url version md5 => Some (Ota_update (JStr url) (JStr version) (of_str md5))
  | Cli_reboot delay => Some (Reboot (JInt delay))
  | Cli_interval type value => Some (Set_interval (JStr type) (JInt value))
  | Cli_monitor | Cli_none => None
  end.

(** [v[k]] for a str [k]. *)
Definition getitem (v : json) (k : string) : res json :=
  match v with
  | JObj fields =>
      match dict_get fields k with Some x => Ok x | None => Raise KeyError end
  | _ => Raise TypeError
  end.

(** What [main] prints: a fixed text, a value between two texts, or a
    value through [json.dumps]. *)
Inductive text : Type :=
| Text (s : string)
| Value (before : string) (v : json) (after : string)
| Dump (v : json).

(** A str is held as the bytes of its UTF-8 form, a surrogate that
    [json.loads] made from an escape like [\ud800] as the three bytes
    that would encode it: the byte 237 and a byte from 160 on.
    [sys.stdout] is UTF-8 and encodes every str but one that holds a
    surrogate. *)
Fixpoint encodable (s : string) : bool :=
  match s with
  | String a (String b _ as rest) =>
      negb ((Ascii.nat_of_ascii a =? 237)%nat && (160 <=? Ascii.nat_of_ascii b)%nat)
      && encodable rest
  | _ => true
  end.

(** [print(f"...{v}...")] can encode what it writes: [str(v)] is [v]
    itself for a str; for the other values it is ASCII but for the strs
    inside a list or a dict, which are written as their [repr], where a
    surrogate is an escape. *)
Definition printable (v : json) : bool :=
  match v with JStr s => encodable s | _ => true end.

(** Printing, with exceptions. *)
Definition P (A : Type) : Type := list text → list text * res A.

Definition skip {A} (a : A) : P A := λ out, (out, Ok a).

(** [print]: a value of the response that cannot be encoded raises
    [UnicodeEncodeError] and nothing is written.  The texts of the
    program and of the command line are taken to be encodable, and
    [json.dumps] writes ASCII. *)
Definition say (t : text) : P unit :=
  λ out, match t with
         | Value _ v _ =>
             if printable v then (out ++ [t], Ok tt) else (out, Raise UnicodeEncodeError)
         | _ => (out ++ [t], Ok tt)
         end.
Definition eval {A} (r : res A) : P A := λ out, (out, r).
Definition andthen {A B} (m : P A) (f : A → P B) : P B :=
  λ out, match m out with
         | (out', Ok a) => f a out'
         | (out', Raise e) => (out', Raise e)
         end.

Notation "'let!' x := m 'in' k" := (andthen m (λ x, k))
  (at level 10, x name, m at level 100, k at level 200).

(** What looking up [d[k]] for printing it gives. *)
Definition field (d : json) (k : string) : res json :=
  match getitem d k with
  | Ok v => if printable v then Ok v else Raise UnicodeEncodeError
  | Raise e => Raise e
  end.

(** [print(f"{before}{response[k1][k2]}{after}")] *)
Definition say_field (before : string) (response : json) (k1 k2 after : string) : P unit :=
  let! data := eval (getitem response k1) in
  let! v := eval (getitem data k2) in
  say (Value before v after).

Definition nl : string := String (Ascii.ascii_of_nat 10) "".

(** What [main] prints before it calls the wrapper. *)
Definition announce (c : cli) : P unit :=
  match c with
  | Cli_ota url version _ =>
      let! _ := say (Text (nl +:+ "Starting OTA update...")) in
      let! _ := say (Text ("  URL: " +:+ url)) in
      say (Text ("  Version: " +:+ version))
  | Cli_none => say (Text "No command specified. Use --help for usage.")
  | _ => skip tt
  end.

(** What [main] does with the value the wrapper returned. *)
Definition report (c : cli) (response : json) : P unit :=
  if truthy response then
    match c with
    | Cli_gps =>
        let! _ := say (Text (nl +:+ "GPS Position:")) in
        let! _ := say_field "  Latitude:  " response "data" "latitude" "" in
        let! _ := say_field "  Longitude: " response "data" "longitude" "" in
        let! _ := say_field "  Altitude:  " response "data" "altitude" " m" in
        let! _ := say_field "  Satellites: " response "data" "satellites" "" in
        say_field "  Valid:     " response "data" "valid" ""
    | Cli_stats =>
        let! _ := say (Text (nl +:+ "Device Statistics:")) in
        let! data := eval (getitem response "data") in
        say (Dump data)
    | Cli_logs _ =>
        let! _ := say (Text (nl +:+ "Device Logs:")) in
        say_field "" response "data" "logs" ""
    | Cli_config _ _ _ _ =>
        let! _ := say (Text (nl +:+ "Configuration Updated:")) in
        let! _ := say_field "  Updated fields: " response "data" "updated" "" in
        say_field "  Restart required: " response "data" "restart_required" ""
    | Cli_ota _ _ _ =>
        let! _ := say (Text (nl +:+ "OTA Update Result:")) in
        let! status := eval (getitem response "status") in
        let! _ := say (Value "  Status: " status "") in
        let! status := eval (getitem response "status") in
        if is_str "success" status then say (Text "  Device will reboot shortly")
        else skip tt
    | Cli_reboot _ =>
        say_field (nl +:+ "Reboot scheduled: ") response "data" "message" ""
    | Cli_interval type _ =>
        let! _ := say (Text (nl +:+ "Interval Updated:")) in
        let! _ := say (Text ("  Type: " +:+ type)) in
        let! _ := say_field "  Previous: " response "data" "previous_value" " ms" in
        say_field "  New: " response "data" "new_value" " ms"
    | Cli_monitor | Cli_none => skip tt
    end
  else skip tt.

(** How [main] ends: it returns a code, an exception leaves it, or it
    stays in the loop of lines 313 and 314. *)
Inductive ending : Type :=
| Exit (code : Z)
| Uncaught (e : exn)
| Forever.

Record main_result : Type := {
  printed : list text;
  torn_down : list teardown;
  ends : ending
}.

(** Lines 241 to 326, given what [connect] returned and what the
    wrapper, if one is called, returns.  No [KeyboardInterrupt] is
    delivered: the monitor never leaves its loop. *)
Definition main (c : cli) (connect_ok : bool) (response : json) (st : state) : main_result :=
  if negb connect_ok then {| printed := []; torn_down := []; ends := Exit 1 |}
  else
    match c with
    | Cli_monitor =>
        {| printed := [Text (nl +:+ "Monitoring device messages... (Press Ctrl+C to stop)")];
           torn_down := [];
           ends := Forever |}
    | _ =>
        let body :=
          let! _ := announce c in
          match requested c with
          | Some _ => report c response
          | None => skip tt
          end in
        {| printed := (body []).1;
           torn_down := (disconnect st).2;
           ends := match (body []).2 with Ok _ => Exit 0 | Raise e => Uncaught e end |}
    end.

End Cli.

(** The object has the field, and [print] can encode its value. *)
Definition shown (fields : list (string * json)) (k : string) : Prop :=
  ∃ v, dict_get fields k = Some v ∧ Cli.printable v = true.

(** The commands for which [main] subscripts [response['data']]. *)
Definition indexes_data (c : Cli.cli) : bool :=
  match c with
  | Cli.Cli_gps | Cli.Cli_logs _ | Cli.Cli_reboot _ | Cli.Cli_interval _ _ => true
  | Cli.Cli_config g h p a => truthy (JObj (Cli.build_config g h p a))
  | _ => false
  end.

(** An option of the [config] subcommand that line 270, 272, 274 or 276
    finds false. *)
Definition unset_int (o : option Z) : Prop := o = None ∨ o = Some 0.
Definition unset_str (o : option string) : Prop := o = None ∨ o = Some ""%string.

(** A call on a client that has not been acknowledged, [n] steps before
    it returns; [w0] is the wire when it was made. *)
Definition refusing (a : args) (w0 : list call) (n : nat) (c : config) : Prop :=
  connected (shared c) = false ∧ wire (shared c) = w0 ∧
  match net c with N_subscribe _ => False | _ => True end ∧
  match n with
  | 1%nat => main c = In_send a SC_entry
  | 0%nat => main c = In_send a (SC_return JNull)
  | _ => False
  end.

(** [connect] on a client whose flag is set, [n] steps before it
    returns. *)
Definition succeeding (n : nat) (c : config) : Prop :=
  connected (shared c) = true ∧
  match n with
  | 4%nat => main c = In_connect CN_entry ∧ reachable (shared c) = true
  | 3%nat => main c = In_connect CN_loop_start ∨ ∃ t, main c = In_connect (CN_sleep t)
  | 2%nat => ∃ t, main c = In_connect (CN_test t)
  | 1%nat => main c = In_connect CN_final
  | 0%nat => main c = In_connect (CN_return true)
  | _ => False
  end.

(** What the clock and the local [start_time] are at each program
    point; [t0] is the clock when the call was made. *)
Definition on_time (a : args) (t0 : Z) (pc : sc_pc) (st : state) : Prop :=
  match pc with
  | SC_test _ s | SC_poll _ s | SC_fetch _ s | SC_sleep _ s => t0 ≤ s
  | SC_expire _ | SC_report _ => t0 + timeout a ≤ clock st
  | _ => True
  end.

(** The lines a call has printed so far do not report a timeout before
    the timeout has passed; [n0] is the length of the console when the
    call was made. *)
Definition punctual (a : args) (t0 : Z) (n0 : nat) (c : config) : Prop :=
  t0 ≤ clock (shared c) ∧
  (n0 ≤ length (console (shared c)))%nat ∧
  ((∃ rid, L_timeout rid ∈ drop n0 (console (shared c))) →
   t0 + timeout a ≤ clock (shared c)) ∧
  ∃ pc, main c = In_send a pc ∧ on_time a t0 pc (shared c).

Definition is_timeout (l : line) : bool :=
  match l with L_timeout _ => true | _ => false end.

(** * [scripts/patch_m5stamplc_ina226.py]: the text of the patch *)

Module Patch.

(** [s.replace(old, new)] for a non-empty [old]: the occurrences of
    [old] are taken from left to right and do not overlap.  [skip]
    counts the characters of an occurrence that are still to be passed
    over.  A file's content is the sequence of the bytes of its UTF-8
    text; the patterns are ASCII, so they match at the same places in
    the bytes as in the text. *)
Fixpoint replace_from (old new : string) (skip : nat) (s : string) : string :=
  match s with
  | EmptyString => EmptyString
  | String ch rest =>
      match skip with
      | S k => replace_from old new k rest
      | O =>
          if String.prefix old s
          then new +:+ replace_from old new (String.length old - 1) rest
          else String ch (replace_from old new 0 rest)
      end
  end.

Definition replace (old new s : string) : string := replace_from old new 0 s.

(** Lines 43 to 52. *)
Definition old_begin : string := "ina226.begin();".
Definition new_begin : string := "ina226.begin(&Wire);".
Definition old_pins : string := "ina226.begin(I2C_SDA, I2C_SCL);".
Definition new_pins : string := "ina226.begin(&Wire, I2C_SDA, I2C_SCL);".

Definition patch (content : string) : string :=
  replace old_pins new_pins (replace old_begin new_begin content).

(** Line 55: the file is written again when [content != original_content]. *)
Definition changed (content : string) : bool :=
  negb (String.eqb (patch content) content).

(** [p in s] *)
Fixpoint occurs (p s : string) : bool :=
  String.prefix p s ||
  match s with
  | EmptyString => false
  | String _ rest => occurs p rest
  end.

(** The two strings are equal as far as the shorter one goes. *)
Fixpoint agree (p w : string) : bool :=
  match p, w with
  | String a p', String b w' => Ascii.eqb a b && agree p' w'
  | _, _ => true
  end.

(** No occurrence of [p] can begin inside [r]: [p] agrees with no
    non-empty end of [r]. *)
Fixpoint clear_left (p r : string) : bool :=
  match r with
  | EmptyString => true
  | String _ rest => negb (agree p r) && clear_left p rest
  end.

(** No occurrence of [p] can run into [r]: no non-empty end of [p]
    agrees with [r]. *)
Fixpoint clear_right (p r : string) : bool :=
  match p with
  | EmptyString => true
  | String _ rest => negb (agree p r) && clear_right rest r
  end.

(** ** The files of the library

    A source file as the script meets it: [content] is what
    [f.read()] gives, or nothing when opening or decoding the file
    raises; [writable] tells whether [open(file_path, 'w')] succeeds.
    [rglob] gives each file once. *)
Record file : Type := File {
  path : string;
  content : option string;
  writable : bool;
}.

(** What the script prints: lines 23, 59, 62, 65 and 67.  The text of
    the exception of line 62 is left out. *)
Inductive report : Type :=
  | R_not_found
  | R_patched (p : string)
  | R_error (p : string)
  | R_updated (n : nat)
  | R_none.

(** Lines 34 to 62, one turn of the loop: the file as it is left, what
    is added to [patches_applied], and what is printed. *)
Definition patch_file (f : file) : file * nat * list report :=
  match content f with
  | None => (f, 0%nat, [R_error (path f)])
  | Some original_content =>
      if changed original_content
      then if writable f
           then (File (path f) (Some (patch original_content)) true,
                 1%nat, [R_patched (path f)])
           else (f, 0%nat, [R_error (path f)])
      else (f, 0%nat, [])
  end.

(** Lines 33 to 62 *)
Fixpoint patch_files (files_to_patch : list file) (patches_applied : nat)
  : list file * nat * list report :=
  match files_to_patch with
  | [] => ([], patches_applied, [])
  | f :: rest =>
      let '(f', k, out) := patch_file f in
      let '(rest', n, out') := patch_files rest (patches_applied + k) in
      (f' :: rest', n, out ++ out')
  end.

(** Lines 16 to 67.  The library is the list of its [.cpp] and [.h]
    files, or nothing when its directory does not exist. *)
Definition patch_m5stamplc_ina226 (lib : option (list file))
  : option (list file) * list report :=
  match lib with
  | None => (None, [R_not_found])
  | Some files_to_patch =>
      let '(files, patches_applied, out) := patch_files files_to_patch 0 in
      (Some files,
       out ++ [if (0 <? patches_applied)%nat then R_updated patches_applied else R_none])
  end.

(** One of the old calls occurs in the file. *)
Definition outdated (f : file) : bool :=
  match content f with
  | Some c => occurs old_begin c || occurs old_pins c
  | None => false
  end.

(** The file makes the loop print an error: it cannot be read, or it
    has an old call and cannot be written. *)
Definition failing (f : file) : bool :=
  match content f with
  | Some c => (occurs old_begin c || occurs old_pins c) && negb (writable f)
  | None => true
  end.

End Patch.
(** * Properties *)

(** ** The callbacks *)

Lemma quiet_refl st : quiet st st.
Proof. by repeat split. Qed.

Lemma quiet_print l st : quiet st (print l st).
Proof. by repeat split. Qed.

Lemma on_message_check_route msg st :
  ∃ st', on_message_check msg st = (st', Ok (route (pending_requests st) msg))
         ∧ quiet st st'.
Proof.
  unfold on_message_check, on_message_body, route, classify, payload_id, bind, lift,
    modify, get, ret, contains_id, getitem_id, pending_contains.
  destruct (decoded msg) as [data|e]; simpl;
    repeat (case_match; simpl in *; simplify_eq);
    eexists; (split; [reflexivity|]); by repeat split.
Qed.

Lemma on_message_spec st msg :
  ∃ st1, quiet st st1 ∧
    _on_message st msg = (on_message_store (route (pending_requests st) msg) st1, Ok tt).
Proof.
  destruct (on_message_check_route msg st) as (st1 & Hc & Hq).
  exists st1. split; [done|]. unfold _on_message. by rewrite Hc.
Qed.

Lemma on_message_pending st msg :
  pending_requests (_on_message st msg).1 =
    match route (pending_requests st) msg with
    | Some (k, data) => <[k := data]> (pending_requests st)
    | None => pending_requests st
    end.
Proof.
  destruct (on_message_spec st msg) as (st1 & (_ & Hp & _) & ->). simpl.
  destruct (route _ msg) as [[k data]|]; simpl; by rewrite Hp.
Qed.

Lemma prefix_app (p s : string) : String.prefix p (p +:+ s) = true.
Proof.
  induction p as [|ch p IH]; simpl; [by destruct s|].
  by destruct (Ascii.ascii_dec ch ch).
Qed.

Lemma classify_rpc seg : classify (rpc_response_prefix +:+ seg) = RpcResponse.
Proof. unfold classify. by rewrite prefix_app. Qed.

Lemma route_response pending msg k data :
  classify (topic msg) = RpcResponse → decoded msg = Ok data → payload_id msg = Some k →
  route pending msg = match pending !! k with Some _ => Some (k, data) | None => None end.
Proof. unfold route. by intros -> -> ->. Qed.

Lemma route_Some pending msg k data :
  route pending msg = Some (k, data) →
  classify (topic msg) = RpcResponse ∧ decoded msg = Ok data ∧ payload_id msg = Some k
  ∧ is_Some (pending !! k).
Proof.
  unfold route. intros H. repeat case_match; simplify_eq. eauto.
Qed.

Lemma payload_id_object msg k :
  payload_id msg = Some k →
  ∃ fields, decoded msg = Ok (JObj fields) ∧ dict_get fields "id" = Some (JStr k).
Proof.
  unfold payload_id. intros H. repeat case_match; simplify_eq. eauto.
Qed.


Lemma classify_exclusive (t : string) :
  (classify t = RpcResponse ↔ String.prefix rpc_response_prefix t = true) ∧
  (classify t = Telemetry ↔ t = telemetry_topic) ∧
  (classify t = Attribute ↔ t = attributes_topic) ∧
  (classify t = Unrecognized ↔
     String.prefix rpc_response_prefix t = false ∧ t ≠ telemetry_topic ∧ t ≠ attributes_topic).
Proof.
  assert (Hta : telemetry_topic ≠ attributes_topic) by done.
  unfold classify.
  destruct (String.prefix rpc_response_prefix t) eqn:Hp.
  - assert (t ≠ telemetry_topic) by (intros ->; discriminate Hp).
    assert (t ≠ attributes_topic) by (intros ->; discriminate Hp).
    intuition congruence.
  - destruct (String.eqb_spec t telemetry_topic) as [Ht|Ht];
      [intuition congruence|].
    destruct (String.eqb_spec t attributes_topic) as [Ha|Ha]; intuition congruence.
Qed.

Lemma on_message_response st msg data k :
  classify (topic msg) = RpcResponse → decoded msg = Ok data → payload_id msg = Some k →
  _on_message st msg =
    (on_message_store
       (match pending_requests st !! k with Some _ => Some (k, data) | None => None end)
       (print (L_response data) st), Ok tt).
Proof.
  intros Hc Hd Hk.
  destruct (payload_id_object _ _ Hk) as (fields & Hd' & Hg).
  rewrite Hd in Hd'. injection Hd' as ->.
  apply classify_exclusive in Hc.
  unfold _on_message, on_message_check, on_message_body, bind, lift, modify, get, ret.
  rewrite Hd, Hc. simpl. rewrite Hg. simpl.
  by destruct (pending_requests st !! k).
Qed.



Lemma step_recv c msg :
  step c (A_recv msg) =
    match net c with
    | N_idle =>
        {| shared := (on_message_check msg (shared c)).1; main := main c;
           net := match route (pending_requests (shared c)) msg with
                  | Some (k, data) => N_store k data
                  | None => N_idle
                  end |}
    | _ => c
    end.
Proof.
  simpl. destruct (net c); try done.
  destruct (on_message_check_route msg (shared c)) as (st' & -> & _).
  simpl. by destruct (route _ msg) as [[??]|].
Qed.



(** ** One step of the machine *)

(** The network thread and the clock leave the calling thread where it
    is. *)
Lemma step_other_main c x : is_main x = false → main (step c x) = main c.
Proof.
  destruct x; try done; intros _.
  - rewrite step_recv. by destruct (net c).
  - simpl. destruct (net c); try done. by destruct (on_connect_flag rc (shared c)) as [? []].
  - simpl. destruct (net c) as [| |[|??]]; done.
Qed.

Lemma returned_step c x v : returned c = Some v → returned (step c x) = Some v.
Proof.
  destruct (is_main x) eqn:Hx.
  - destruct x; try done. unfold returned. destruct c as [st m n]. simpl.
    destruct m as [pc|a pc]; destruct pc; done.
  - unfold returned. by rewrite step_other_main.
Qed.

Lemma returned_run sched c v : returned c = Some v → returned (run sched c) = Some v.
Proof.
  revert c. induction sched as [|x sched IH]; intros c H; [done|].
  apply IH. by apply returned_step.
Qed.



(** Telemetry that arrives while a request is outstanding is printed
    and touches no slot. *)
Example telemetry_leaves_slots :
  _on_message Sample.two_pending
    {| topic := telemetry_topic; payload := ""; decoded := Ok Sample.position |}
  = (print (L_telemetry Sample.position) Sample.two_pending, Ok tt).
Proof. reflexivity. Qed.

(** A list, a number or a str where an object is expected is reported
    and touches no slot. *)
Example misshapen_payloads :
  _on_message Sample.two_pending (Sample.response "req-1000" (JArr [JStr "id"]))
  = (print (L_error TypeError) (print (L_response (JArr [JStr "id"])) Sample.two_pending),
     Ok tt) ∧
  _on_message Sample.two_pending (Sample.response "req-1000" (JInt 7))
  = (print (L_error TypeError) (print (L_response (JInt 7)) Sample.two_pending), Ok tt) ∧
  _on_message Sample.two_pending (Sample.response "req-1000" (JStr "no idea"))
  = (print (L_error TypeError) (print (L_response (JStr "no idea")) Sample.two_pending),
     Ok tt) ∧
  _on_message Sample.two_pending
    (Sample.response "req-1000" (JObj [("id", JArr [])]))
  = (print (L_error TypeError) (print (L_response (JObj [("id", JArr [])]))
                                  Sample.two_pending), Ok tt) ∧
  _on_message Sample.two_pending (Sample.response "req-1000" (JObj [("id", JInt 1000)]))
  = (print (L_response (JObj [("id", JInt 1000)])) Sample.two_pending, Ok tt).
Proof. repeat split. Qed.

(** ** Responses and the slots they resolve *)

(** C8, as the code has it.  [_on_message] never looks at the segment
    of the topic after the response prefix: a response on any RPC
    response topic is printed and then resolves the slot its payload's
    [id] names when that slot is registered, and no slot otherwise. *)
Theorem response_routed_by_payload_id (st : state) (seg raw : string) (data : json)
    (k : string) :
  payload_id {| topic := rpc_response_prefix +:+ seg; payload := raw; decoded := Ok data |}
    = Some k →
  _on_message st {| topic := rpc_response_prefix +:+ seg; payload := raw; decoded := Ok data |}
  = (set_pending
       (match pending_requests st !! k with
        | Some _ => <[k := data]> (pending_requests st)
        | None => pending_requests st
        end)
       (print (L_response data) st), Ok tt).
Proof.
  intros Hk. rewrite (on_message_response _ _ data k); [|apply classify_rpc|done|done].
  by destruct (pending_requests st !! k).
Qed.

Lemma response_routed_by_payload_id_witness :
  _on_message Sample.two_pending (Sample.response "req-2000" Sample.position)
  = (set_pending
       (match pending_requests Sample.two_pending !! "req-1000" with
        | Some _ => <["req-1000" := Sample.position]> (pending_requests Sample.two_pending)
        | None => pending_requests Sample.two_pending
        end)
       (print (L_response Sample.position) Sample.two_pending), Ok tt).
Proof.
  apply (response_routed_by_payload_id Sample.two_pending "req-2000" "" Sample.position
           "req-1000").
  reflexivity.
Defined.

(** C8, as the claim has it, fails: a response that arrives on the topic
    of [req-2000] and whose payload says [req-1000] resolves the slot of
    [req-1000]. *)
Lemma stray_topic_resolves_slot :
  topic (Sample.response "req-2000" Sample.position) = rpc_response_prefix +:+ "req-2000" ∧
  payload_id (Sample.response "req-2000" Sample.position) = Some "req-1000" ∧
  pending_requests Sample.two_pending !! "req-1000" = Some JNull ∧
  pending_requests
    (_on_message Sample.two_pending (Sample.response "req-2000" Sample.position)).1
    !! "req-1000" = Some Sample.position ∧
  pending_requests
    (_on_message Sample.two_pending (Sample.response "req-2000" Sample.position)).1
    !! "req-2000" = Some JNull.
Proof. repeat split; vm_compute; reflexivity. Qed.

(** C2, as the code has it.  A response for [k] never raises.  When no
    slot for [k] is registered, as after [send_command] has removed it,
    the response changes nothing in [pending_requests]; when a slot is
    registered it is overwritten, whatever it holds, so of two responses
    stored before the caller fetches, the last one stays.  And a value
    that a call has returned is not changed by anything that happens
    later. *)
Theorem duplicate_response (st : state) (msg : MQTTMessage) (data : json) (k : string) :
  classify (topic msg) = RpcResponse → decoded msg = Ok data → payload_id msg = Some k →
  (_on_message st msg).2 = Ok tt ∧
  (pending_requests st !! k = None →
     pending_requests (_on_message st msg).1 = pending_requests st) ∧
  (∀ first, pending_requests st !! k = Some first →
     pending_requests (_on_message st msg).1 = <[k := data]> (pending_requests st)) ∧
  (∀ c sched v, returned c = Some v → returned (run sched c) = Some v).
Proof.
  intros Hc Hd Hk. rewrite (on_message_response st msg data k Hc Hd Hk).
  repeat split.
  - by intros ->.
  - by intros first ->.
  - intros c sched v. apply returned_run.
Qed.

Lemma duplicate_response_witness :
  (_on_message Sample.ready (Sample.response "req-1000" Sample.position')).2 = Ok tt ∧
  (pending_requests Sample.ready !! "req-1000" = None →
     pending_requests (_on_message Sample.ready (Sample.response "req-1000" Sample.position')).1
     = pending_requests Sample.ready) ∧
  (∀ first, pending_requests Sample.ready !! "req-1000" = Some first →
     pending_requests (_on_message Sample.ready (Sample.response "req-1000" Sample.position')).1
     = <["req-1000" := Sample.position']> (pending_requests Sample.ready)) ∧
  (∀ c sched v, returned c = Some v → returned (run sched c) = Some v).
Proof.
  apply (duplicate_response Sample.ready (Sample.response "req-1000" Sample.position')
           Sample.position' "req-1000"); reflexivity.
Defined.

(** C2, as the claim has it, fails: the second response to [req-1000],
    arriving while the first is stored and not yet fetched, replaces
    it, and the waiting call returns the second. *)
Lemma second_response_overwrites :
  pending_requests Sample.stored !! "req-1000" = Some Sample.position ∧
  payload_id (Sample.response "req-1000" Sample.position') = Some "req-1000" ∧
  pending_requests
    (_on_message Sample.stored (Sample.response "req-1000" Sample.position')).1
    !! "req-1000" = Some Sample.position' ∧
  returned (run Runs.twice (calling Sample.get_gps Sample.ready)) = Some Sample.position' ∧
  Sample.position' ≠ Sample.position.
Proof. repeat split; try (vm_compute; reflexivity). discriminate. Qed.

(** ** The test of the wait loop *)

(** The loop goes round only up to the deadline, and always before
    it. *)
Lemma still_waiting_true start t timeout :
  still_waiting start t timeout = true → t - start ≤ timeout.
Proof.
  unfold still_waiting. intros H. apply orb_true_iff in H as [H|H]; [lia|].
  apply andb_true_iff in H as [H _]. lia.
Qed.

Lemma still_waiting_false start t timeout :
  still_waiting start t timeout = false → timeout ≤ t - start.
Proof.
  unfold still_waiting. intros H. apply orb_false_iff in H as [H _]. lia.
Qed.

Lemma still_waiting_early start t timeout :
  t - start < timeout → still_waiting start t timeout = true.
Proof.
  unfold still_waiting. intros H. apply orb_true_iff. left. lia.
Qed.

Lemma still_waiting_late start t timeout :
  timeout < t - start → still_waiting start t timeout = false.
Proof.
  unfold still_waiting. intros H. apply orb_false_iff. split; [lia|].
  apply andb_false_iff. left. lia.
Qed.

(** ** Runs *)

Lemma run_app s1 s2 c : run (s1 ++ s2) c = run s2 (run s1 c).
Proof. apply fold_left_app. Qed.

Lemma run_cons x s c : run (x :: s) c = run s (step c x).
Proof. done. Qed.

Lemma main_steps_app s1 s2 : main_steps (s1 ++ s2) = (main_steps s1 + main_steps s2)%nat.
Proof. induction s1 as [|x s1 IH]; simpl; [done|]. destruct (is_main x); lia. Qed.

Section Invariants.

Variable allowed : action → Prop.

(** A property that every allowed step preserves holds after every
    allowed schedule. *)
Lemma run_invariant (I : config → Prop) :
  (∀ c x, allowed x → I c → I (step c x)) →
  ∀ sched c, Forall allowed sched → I c → I (run sched c).
Proof.
  intros Hstep sched. induction sched as [|x sched IH]; intros c Hs Hc; [done|].
  inversion Hs; subst. apply IH; [done|]. by apply Hstep.
Qed.

(** A ranked property: steps of the calling thread lower the rank by
    one until it is 0, the other steps keep it.  Enough steps of the
    calling thread bring the rank to 0. *)
Lemma run_ranked (I : nat → config → Prop) :
  (∀ n c x, allowed x → is_main x = false → I n c → I n (step c x)) →
  (∀ n c, I (S n) c → I n (step c A_main)) →
  (∀ c, I 0%nat c → I 0%nat (step c A_main)) →
  ∀ sched n c, Forall allowed sched → I n c → (n ≤ main_steps sched)%nat →
               I 0%nat (run sched c).
Proof.
  intros Hother Hdown Hzero sched.
  induction sched as [|x sched IH]; intros n c Hs Hc Hn; simpl in Hn.
  - by replace n with 0%nat in Hc by lia.
  - inversion Hs; subst. rewrite run_cons.
    destruct (is_main x) eqn:Hx.
    + destruct x; try discriminate Hx.
      destruct n as [|n].
      * apply (IH 0%nat); [done| by apply Hzero | lia].
      * apply (IH n); [done| by apply Hdown | lia].
    + apply (IH n); [done| by apply Hother | done].
Qed.

End Invariants.

(** What a step of the network thread or of the clock does to one slot. *)
Lemma step_other_slot c x rid :
  is_main x = false → not_for rid x → net_clear rid (net c) →
  pending_requests (shared (step c x)) !! rid = pending_requests (shared c) !! rid ∧
  net_clear rid (net (step c x)).
Proof.
  intros Hx Hfor Hnet. destruct x; try discriminate Hx.
  - rewrite step_recv. destruct (net c) eqn:Hn; try (by rewrite ?Hn).
    simpl. destruct (on_message_check_route msg (shared c)) as (st' & Hc & _ & Hp & _).
    rewrite Hc. simpl. rewrite Hp. split; [done|].
    destruct (route _ msg) as [[k data]|] eqn:Hr; [|done]. simpl.
    apply route_Some in Hr as (_ & _ & Hk & _). simpl in Hfor. congruence.
  - simpl. destruct (net c) eqn:Hn; try (by rewrite ?Hn).
    unfold on_connect_flag. by destruct (rc =? 0).
  - simpl. destruct (net c) as [|k data|[|t todo]] eqn:Hn; try (by rewrite ?Hn).
    simpl. simpl in Hnet. by rewrite lookup_insert_ne.
  - done.
Qed.

Lemma on_message_check_console msg st :
  ∃ ls, console (on_message_check msg st).1 = console st ++ ls.
Proof.
  unfold on_message_check, on_message_body, bind, lift, modify, get, ret,
    contains_id, getitem_id, pending_contains.
  destruct (decoded msg) as [data|e]; simpl;
    repeat (case_match; simpl in *; simplify_eq);
    first [ by exists []; simpl; rewrite ?app_nil_r
          | eexists; rewrite <- ?app_assoc; simpl; reflexivity ].
Qed.

(** Nothing is ever erased from the console, and the clock never runs
    backwards. *)
Lemma step_console c x l : l ∈ console (shared c) → l ∈ console (shared (step c x)).
Proof.
  intros Hl. destruct x.
  - simpl. destruct (main c) as [pc|a pc]; destruct pc; simpl;
      repeat case_match; simpl; simplify_eq; simpl; set_solver.
  - rewrite step_recv. destruct (net c); try done. simpl.
    destruct (on_message_check_console msg (shared c)) as [ls ->]. set_solver.
  - simpl. destruct (net c); try done. unfold on_connect_flag.
    destruct (rc =? 0); simpl; set_solver.
  - simpl. destruct (net c) as [|k data|[|t todo]]; simpl; set_solver.
  - done.
Qed.

Lemma step_clock c x : clock (shared c) ≤ clock (shared (step c x)).
Proof.
  destruct x.
  - simpl. destruct (main c) as [pc|a pc]; destruct pc; simpl;
      repeat case_match; simpl; simplify_eq; simpl; unfold poll_interval; lia.
  - rewrite step_recv. destruct (net c); try done. simpl.
    destruct (on_message_check_route msg (shared c)) as (st' & Hc & _ & _ & _ & Hk & _).
    rewrite Hc. simpl. by rewrite Hk.
  - simpl. destruct (net c); try done. unfold on_connect_flag.
    destruct (rc =? 0); simpl; lia.
  - simpl. destruct (net c) as [|k data|[|t todo]]; simpl; lia.
  - simpl. lia.
Qed.

(** ** A response that the wait loop polls *)

Lemma step_main_net c : net (step c A_main) = net c.
Proof.
  simpl. destruct (main c) as [pc|a pc];
    [by destruct (connect_step pc (shared c))|by destruct (send_command_step a pc (shared c))].
Qed.

Lemma fetching_other a rid data n c x :
  not_for rid x → is_main x = false → fetching a rid data n c → fetching a rid data n (step c x).
Proof.
  intros Hfor Hx [Hnet H].
  destruct (step_other_slot c x rid Hx Hfor Hnet) as [Hslot Hnet'].
  split; [done|]. rewrite step_other_main, Hslot; done.
Qed.

Lemma fetching_down a rid data n c :
  is_None data = false → fetching a rid data (S n) c → fetching a rid data n (step c A_main).
Proof.
  intros Hdata [Hnet H].
  destruct n as [|[|[|n]]]; try done; (split; [by rewrite step_main_net|]); simpl.
  - destruct H as [-> Hslot]. simpl. rewrite Hslot. simpl. by rewrite lookup_delete_eq.
  - destruct H as (start_time & -> & Hslot). simpl. by rewrite Hslot.
  - destruct H as (start_time & -> & Hslot). simpl. rewrite Hslot, Hdata. eauto.
Qed.

Lemma fetching_zero a rid data c :
  fetching a rid data 0 c → fetching a rid data 0 (step c A_main).
Proof.
  intros [Hnet [Hmain Hslot]]. split; [by rewrite step_main_net|]. simpl. by rewrite Hmain.
Qed.

(** While line 65 is pending the calling thread goes on: it stays in
    its loop, or leaves it. *)
Lemma storing_step a rid start_time data c x :
  x ≠ A_net → storing a rid start_time data c → storing a rid start_time data (step c x).
Proof.
  intros Hx (Hnet & pc & Hmain & Hpc).
  destruct x; try done.
  - split; [by rewrite step_main_net|]. simpl. rewrite Hmain.
    destruct Hpc as [[[->|[->| ->]]| ->]|Hleave]; simpl.
    + destruct (still_waiting _ _ _); eexists; (split; [done|]); left;
        [left; right; left; done|right; done].
    + destruct (pending_requests (shared c) !! rid) as [v|]; [destruct (is_None v)|];
        eexists; (split; [done|]);
        [left; left; right; right; done|right; done|right; done].
    + eexists; split; [done|]. left. left. left. done.
    + destruct (pending_requests (shared c) !! rid); eexists; (split; [done|]); right; done.
    + destruct pc; try done; simpl;
        try destruct (pending_requests (shared c) !! _); simpl;
        eexists; (split; [done|]); right; done.
  - simpl. rewrite Hnet. split; [done|]. by exists pc.
  - simpl. rewrite Hnet. split; [done|]. by exists pc.
  - split; [done|]. by exists pc.
Qed.

Lemma storing_run a rid start_time data mid c :
  Forall (λ x, x ≠ A_net) mid →
  storing a rid start_time data c → storing a rid start_time data (run mid c).
Proof.
  intros Hmid. apply (run_invariant (λ x, x ≠ A_net)); [|done].
  intros c' x Hx. by apply storing_step.
Qed.

(** Line 64 has found the slot registered. *)
Lemma recv_storing a rid start_time data c pc msg :
  main c = In_send a pc → in_loop rid start_time pc → net c = N_idle →
  is_Some (pending_requests (shared c) !! rid) →
  classify (topic msg) = RpcResponse → decoded msg = Ok data → payload_id msg = Some rid →
  storing a rid start_time data (step c (A_recv msg)).
Proof.
  intros Hmain Hpc Hnet [v Hslot] Hc Hd Hk.
  rewrite step_recv, Hnet, (route_response _ _ rid data Hc Hd Hk), Hslot.
  split; [done|]. exists pc. split; [done|]. left. by left.
Qed.

(** Line 65. *)
Lemma store_held a rid start_time data c :
  storing a rid start_time data c → held a rid start_time data (step c A_net).
Proof.
  intros (Hnet & pc & Hmain & Hpc). simpl. rewrite Hnet.
  split; [done|]. exists pc. split; [done|].
  destruct Hpc as [Hw|Hl]; [left|by right]. split; [done|]. simpl.
  by rewrite lookup_insert_eq.
Qed.

Lemma held_step a rid start_time data c x :
  not_for rid x → held a rid start_time data c → held a rid start_time data (step c x).
Proof.
  intros Hfor (Hnet & pc & Hmain & Hpc).
  destruct (is_main x) eqn:Hx.
  - destruct x; try discriminate Hx. split; [by rewrite step_main_net|].
    simpl. rewrite Hmain.
    destruct Hpc as [[[[->|[->| ->]]| ->] Hslot]|Hleave]; simpl.
    + destruct (still_waiting _ _ _); eexists; (split; [done|]); left; (split; [|done]);
        [left; right; left; done|right; done].
    + rewrite Hslot. destruct (is_None data); eexists; (split; [done|]);
        [left; split; [left; right; right; done|done]|right; done].
    + eexists; split; [done|]. left. split; [left; left; done|done].
    + rewrite Hslot. eexists; split; [done|]. by right.
    + destruct pc; try done; simpl;
        try destruct (pending_requests (shared c) !! _); simpl;
        eexists; (split; [done|]); right; done.
  - destruct (step_other_slot c x rid Hx Hfor Hnet) as [Hslot Hnet'].
    split; [done|]. exists pc. rewrite step_other_main, Hslot; done.
Qed.

Lemma dropping_other a rid n c x :
  not_for rid x → is_main x = false → dropping a rid n c → dropping a rid n (step c x).
Proof.
  intros Hfor Hx [Hnet H].
  destruct (step_other_slot c x rid Hx Hfor Hnet) as [Hslot Hnet'].
  split; [done|]. rewrite step_other_main, Hslot; [|done].
  destruct n as [|[|[|n]]]; try done.
  destruct H as (Hm & Hs & Hl). repeat split; try done. by apply step_console.
Qed.

Lemma dropping_down a rid n c :
  dropping a rid (S n) c → dropping a rid n (step c A_main).
Proof.
  intros [Hnet H].
  destruct n as [|[|n]]; try done; (split; [by rewrite step_main_net|]); simpl.
  - destruct H as [-> Hslot]. simpl. split; [done|]. split; [done|]. set_solver.
  - destruct H as [-> [v Hslot]]. simpl. rewrite Hslot. simpl.
    by rewrite lookup_delete_eq.
Qed.

Lemma dropping_zero a rid c :
  dropping a rid 0 c → dropping a rid 0 (step c A_main).
Proof.
  intros [Hnet (Hmain & Hslot & Hl)]. split; [by rewrite step_main_net|].
  simpl. by rewrite Hmain.
Qed.

(** C1, as the code has it.  A call waits in its loop for [rid], whose
    slot is registered.  A response whose payload carries [rid] arrives
    on an RPC response topic and the network thread takes it up; the
    calling thread and the clock may take any steps between lines 64
    and 65; no other message carrying [rid] arrives after line 65.
    Then, if the call comes to poll the slot (line 129), which it does
    when its test of line 128 finds the deadline not yet passed, within
    three more steps of its own it returns exactly the decoded response
    and the slot is gone from [pending_requests].  If instead the call
    has found its deadline passed and is about to delete the slot (line
    136), it deletes the slot with the response in it and returns
    [None], within two more steps of its own. *)
Theorem response_returned (c : config) (a : args) (rid : string) (start_time : Z)
    (pc : sc_pc) (msg : MQTTMessage) (data : json) (mid rest1 rest2 : list action) :
  main c = In_send a pc → in_loop rid start_time pc → net c = N_idle →
  is_Some (pending_requests (shared c) !! rid) →
  classify (topic msg) = RpcResponse → decoded msg = Ok data → payload_id msg = Some rid →
  Forall (λ x, x ≠ A_net) mid →
  Forall (not_for rid) rest1 → Forall (not_for rid) rest2 →
  (main (run (A_recv msg :: mid ++ A_net :: rest1) c) = In_send a (SC_poll rid start_time) →
   (3 ≤ main_steps rest2)%nat →
   returned (run ((A_recv msg :: mid ++ A_net :: rest1) ++ rest2) c) = Some data ∧
   pending_requests (shared (run ((A_recv msg :: mid ++ A_net :: rest1) ++ rest2) c))
     !! rid = None) ∧
  (main (run (A_recv msg :: mid ++ A_net :: rest1) c) = In_send a (SC_expire rid) →
   (2 ≤ main_steps rest2)%nat →
   returned (run ((A_recv msg :: mid ++ A_net :: rest1) ++ rest2) c) = Some JNull ∧
   pending_requests (shared (run ((A_recv msg :: mid ++ A_net :: rest1) ++ rest2) c))
     !! rid = None ∧
   L_timeout rid
     ∈ console (shared (run ((A_recv msg :: mid ++ A_net :: rest1) ++ rest2) c))).
Proof.
  intros Hmain Hpc Hnet Hslot Hc Hd Hk Hmid Hr1 Hr2.
  assert (Hdata : is_None data = false).
  { destruct (payload_id_object _ _ Hk) as (fields & Hd' & _).
    rewrite Hd in Hd'. by injection Hd' as ->. }
  assert (Hheld : held a rid start_time data (run (A_recv msg :: mid ++ A_net :: rest1) c)).
  { rewrite run_cons, run_app, run_cons.
    apply (run_invariant (not_for rid)); [intros; by apply held_step|done|].
    apply store_held, storing_run; [done|]. by eapply recv_storing. }
  rewrite run_app.
  destruct Hheld as (Hn & pc' & Hm & Hheld). split.
  - intros Hpoll Hsteps. rewrite Hpoll in Hm. injection Hm as <-.
    destruct Hheld as [[_ Hs]|[]].
    assert (H3 : fetching a rid data 3 (run (A_recv msg :: mid ++ A_net :: rest1) c)).
    { split; [done|]. eauto. }
    apply (run_ranked (not_for rid) (fetching a rid data)) with (sched := rest2) in H3;
      [..|done|done].
    + destruct H3 as (_ & Hm & Hs'). split; [|done]. unfold returned. by rewrite Hm.
    + intros. by apply fetching_other.
    + intros. by apply fetching_down.
    + apply fetching_zero.
  - intros Hexp Hsteps. rewrite Hexp in Hm. injection Hm as <-.
    destruct Hheld as [[_ Hs]|[]].
    assert (H2 : dropping a rid 2 (run (A_recv msg :: mid ++ A_net :: rest1) c)).
    { split; [done|]. split; [done|]. by eexists. }
    apply (run_ranked (not_for rid) (dropping a rid)) with (sched := rest2) in H2;
      [..|done|done].
    + destruct H2 as (_ & Hm & Hs' & Hl). split; [|done]. unfold returned. by rewrite Hm.
    + intros. by apply dropping_other.
    + intros. by apply dropping_down.
    + apply dropping_zero.
Qed.

(** ** A slot that stays empty *)

Lemma timing_out_other a rid start_time n c x :
  not_for rid x → is_main x = false →
  timing_out a rid start_time n c → timing_out a rid start_time n (step c x).
Proof.
  intros Hfor Hx [Hnet H].
  destruct (step_other_slot c x rid Hx Hfor Hnet) as [Hslot Hnet'].
  split; [done|]. rewrite step_other_main, Hslot; [|done].
  destruct n as [|[|[|[|[|[|n]]]]]]; try done.
  destruct H as (? & ? & ?). repeat split; try done. by apply step_console.
Qed.

Lemma turns_left_late a s t : timeout a < t - s → turns_left a s t = 0%nat.
Proof.
  unfold turns_left, poll_interval. intros H.
  assert ((s + timeout a - t + 100000) / 100000 ≤ 0); [|lia].
  Z.to_euclidean_division_equations. lia.
Qed.

Lemma turns_left_early a s t : t - s ≤ timeout a → (1 ≤ turns_left a s t)%nat.
Proof.
  unfold turns_left, poll_interval. intros H.
  assert (1 ≤ (s + timeout a - t + 100000) / 100000); [|lia].
  Z.to_euclidean_division_equations. lia.
Qed.

Lemma turns_left_mono a s t t' : t ≤ t' → (turns_left a s t' ≤ turns_left a s t)%nat.
Proof.
  unfold turns_left, poll_interval. intros H.
  assert ((s + timeout a - t' + 100000) / 100000
          ≤ (s + timeout a - t + 100000) / 100000); [|lia].
  Z.to_euclidean_division_equations. lia.
Qed.

Lemma turns_left_sleep a s t :
  turns_left a s (t + poll_interval) = (turns_left a s t - 1)%nat.
Proof.
  unfold turns_left, poll_interval.
  assert ((s + timeout a - (t + 100000) + 100000) / 100000
          = (s + timeout a - t + 100000) / 100000 - 1); [|lia].
  Z.to_euclidean_division_equations. lia.
Qed.

Lemma cost_mono m tl tl' : (tl' ≤ tl)%nat → (cost m tl' ≤ cost m tl)%nat.
Proof.
  intros H. destruct m as [|[|[|[|[|[|m]]]]]]; simpl; try lia; destruct tl', tl; lia.
Qed.

Lemma cost_zero m tl : (cost m tl ≤ 0)%nat → m = 0%nat.
Proof.
  destruct m as [|[|[|[|[|[|m]]]]]]; unfold cost; try lia; destruct tl; lia.
Qed.

Lemma expires_within_other a rid start_time n c x :
  not_for rid x → is_main x = false →
  expires_within a rid start_time n c → expires_within a rid start_time n (step c x).
Proof.
  intros Hfor Hx (m & Ht & Hc). exists m. split; [by apply timing_out_other|].
  pose proof (step_clock c x) as Hclock.
  pose proof (turns_left_mono a start_time _ _ Hclock) as Htl.
  pose proof (cost_mono m _ _ Htl). lia.
Qed.

Lemma expires_within_down a rid start_time n c :
  expires_within a rid start_time (S n) c → expires_within a rid start_time n (step c A_main).
Proof.
  intros (m & [Hnet H] & Hc). pose proof (step_main_net c) as Hn. unfold expires_within.
  destruct m as [|[|[|[|[|[|m]]]]]]; try done.
  - exists 0%nat. destruct H as (Hm & Hs & Hl). split; [|simpl; lia].
    split; [by rewrite Hn|]. simpl. by rewrite Hm.
  - exists 0%nat. destruct H as (Hm & Hs). split; [|simpl; lia].
    split; [by rewrite Hn|]. simpl. rewrite Hm. simpl. repeat split; try done. set_solver.
  - exists 1%nat. destruct H as (Hm & Hs). split; [|simpl in *; lia].
    split; [by rewrite Hn|]. simpl. rewrite Hm. simpl. rewrite Hs. simpl.
    by rewrite lookup_delete_eq.
  - destruct H as (Hm & Hs).
    destruct (still_waiting start_time (clock (shared c)) (timeout a)) eqn:Ht.
    + exists 5%nat.
      assert (Hclock : clock (shared (step c A_main)) = clock (shared c))
        by (simpl; rewrite Hm; simpl; by rewrite Ht).
      split; [split; [by rewrite Hn|]; simpl; rewrite Hm; simpl; by rewrite Ht|].
      rewrite Hclock.
      assert (1 ≤ turns_left a start_time (clock (shared c)))%nat
        by (apply turns_left_early; by apply still_waiting_true).
      simpl in Hc. destruct (turns_left _ _ _); simpl; lia.
    + exists 2%nat. split; [|simpl in *; lia].
      split; [by rewrite Hn|]. simpl. rewrite Hm. simpl. by rewrite Ht.
  - exists 3%nat. destruct H as (Hm & Hs).
    assert (Hclock : clock (shared (step c A_main)) = clock (shared c) + poll_interval)
      by (simpl; by rewrite Hm).
    split; [split; [by rewrite Hn|]; simpl; by rewrite Hm|].
    rewrite Hclock, turns_left_sleep. simpl in Hc.
    destruct (turns_left _ _ _); simpl in *; lia.
  - exists 4%nat. destruct H as (Hm & Hs).
    assert (Hclock : clock (shared (step c A_main)) = clock (shared c))
      by (simpl; rewrite Hm; simpl; by rewrite Hs).
    split; [split; [by rewrite Hn|]; simpl; rewrite Hm; simpl; by rewrite Hs|].
    rewrite Hclock. simpl in Hc. destruct (turns_left _ _ _); simpl in *; lia.
Qed.

Lemma expires_within_zero a rid start_time c :
  expires_within a rid start_time 0 c → expires_within a rid start_time 0 (step c A_main).
Proof.
  intros (m & [Hnet H] & Hc).
  assert (m = 0%nat) as ->.
  { by apply cost_zero in Hc. }
  exists 0%nat. split; [|done]. destruct H as (Hm & Hs & Hl).
  split; [by rewrite step_main_net|]. simpl. by rewrite Hm.
Qed.

(** C3, as the code has it.  A call waits in its loop for [rid], whose
    slot is empty, and no message carrying [rid] arrives.  Then the call
    returns: three steps of its own for every poll the time to its
    deadline still allows, the poll at the deadline counted in, and
    five more, are enough under every schedule.  The value returned is
    [None], the line [[TIMEOUT] No response received for rid] has been
    printed, and [pending_requests] has no entry for [rid]. *)
Theorem timeout_purges_slot (c : config) (a : args) (rid : string) (start_time : Z)
    (pc : sc_pc) (sched : list action) :
  main c = In_send a pc → in_loop rid start_time pc → net_clear rid (net c) →
  pending_requests (shared c) !! rid = Some JNull →
  Forall (not_for rid) sched →
  (3 * turns_left a start_time (clock (shared c)) + 5 ≤ main_steps sched)%nat →
  returned (run sched c) = Some JNull ∧
  L_timeout rid ∈ console (shared (run sched c)) ∧
  pending_requests (shared (run sched c)) !! rid = None.
Proof.
  intros Hmain Hpc Hnet Hslot Hsched Hsteps.
  assert (H0 : expires_within a rid start_time
                 (3 * turns_left a start_time (clock (shared c)) + 5) c).
  { destruct Hpc as [->|[->| ->]]; [exists 3%nat|exists 5%nat|exists 4%nat];
      (split; [done|]); simpl; destruct (turns_left _ _ _); lia. }
  apply (run_ranked (not_for rid) (expires_within a rid start_time)) with (sched := sched)
    in H0; [..|done|done].
  - destruct H0 as (m & Ht & Hc).
    assert (m = 0%nat) as ->.
    { by apply cost_zero in Hc. }
    destruct Ht as (_ & Hm & Hs & Hl). repeat split; try done.
    unfold returned. by rewrite Hm.
  - intros. by apply expires_within_other.
  - intros. by apply expires_within_down.
  - apply expires_within_zero.
Qed.

(** The poll at the deadline.  A call that began to wait 2.3 seconds
    past the epoch with a timeout of 30 seconds finds, when the clock
    shows 32.3 seconds, that the difference of its readings is just
    below 30: after 300 polls it polls once more, and it gives up at
    32.4 seconds.  A call that began at 1.0 seconds, as in the runs
    below, gives up after 300 polls. *)
Example deadline_on_readings :
  (32300000 - 2300000 <? 30000000) = false ∧
  before_deadline 2300000 32300000 30000000 = true ∧
  before_deadline 2300000 32400000 30000000 = false ∧
  before_deadline 1000000 31000000 30000000 = false ∧
  main (run (Sample.preamble ++ Sample.turns 300 ++ [A_main])
          (calling Sample.get_gps (set_connected true (init 2300000 true))))
    = In_send Sample.get_gps (SC_poll "req-2300" 2300000) ∧
  main (run (Sample.preamble ++ Sample.turns 301 ++ [A_main])
          (calling Sample.get_gps (set_connected true (init 2300000 true))))
    = In_send Sample.get_gps (SC_expire "req-2300") ∧
  main (run (Sample.preamble ++ Sample.turns 300 ++ [A_main])
          (calling Sample.get_gps Sample.ready))
    = In_send Sample.get_gps (SC_expire "req-1000").
Proof. repeat split; vm_compute; reflexivity. Qed.

(** The test of the machine and the test on the readings give the
    same answer one microsecond before the deadline, at the deadline
    and one microsecond after it, for a call that began to wait at any
    of two hundred times spread over the year 2023, with the timeouts
    of 30 and of 120 seconds. *)
Example deadline_samples :
  forallb (λ k : nat,
    forallb (λ timeout : Z,
      forallb (λ d : Z,
        Bool.eqb (still_waiting (1672531200000000 + Z.of_nat k * 157680000123)
                    (1672531200000000 + Z.of_nat k * 157680000123 + timeout + d) timeout)
                 (before_deadline (1672531200000000 + Z.of_nat k * 157680000123)
                    (1672531200000000 + Z.of_nat k * 157680000123 + timeout + d) timeout))
        [-1; 0; 1])
      [30000000; 120000000])
    (seq 0 200) = true.
Proof. vm_compute. reflexivity. Qed.

Lemma response_returned_witness :
  returned (run ((A_recv (Sample.response "req-1000" Sample.position)
                    :: [A_main; A_tick 1000] ++ A_net :: [])
                   ++ [A_main; A_main; A_main]) Runs.waiting)
    = Some Sample.position ∧
  pending_requests
    (shared (run ((A_recv (Sample.response "req-1000" Sample.position)
                     :: [A_main; A_tick 1000] ++ A_net :: [])
                    ++ [A_main; A_main; A_main]) Runs.waiting))
    !! "req-1000" = None.
Proof.
  apply (response_returned Runs.waiting Sample.get_gps "req-1000" 1000000
           (SC_test "req-1000" 1000000) (Sample.response "req-1000" Sample.position)
           Sample.position [A_main; A_tick 1000] [] [A_main; A_main; A_main]).
  - vm_compute; reflexivity.
  - left; reflexivity.
  - vm_compute; reflexivity.
  - vm_compute; eauto.
  - vm_compute; reflexivity.
  - reflexivity.
  - vm_compute; reflexivity.
  - repeat constructor; discriminate.
  - constructor.
  - repeat constructor.
  - vm_compute; reflexivity.
  - simpl; lia.
Defined.

(** C1, as the claim has it, fails: [get_gps] waits with the default
    timeout of 30 seconds; 29.95 seconds after it started waiting, while
    it is in its loop, the response arrives and is stored in the slot;
    the call wakes up after its deadline, deletes the slot with the
    response in it and returns [None]. *)
Lemma late_response_lost :
  main (run Runs.last_nap (calling Sample.get_gps Sample.ready))
    = In_send Sample.get_gps (SC_sleep "req-1000" 1000000) ∧
  clock (shared (run Runs.last_nap (calling Sample.get_gps Sample.ready))) - 1000000
    = 29950000 ∧
  29950000 < timeout Sample.get_gps ∧
  payload_id (Sample.response "req-1000" Sample.position) = Some "req-1000" ∧
  pending_requests
    (shared (run (Runs.last_nap ++ deliver (Sample.response "req-1000" Sample.position))
               (calling Sample.get_gps Sample.ready))) !! "req-1000"
    = Some Sample.position ∧
  returned
    (run (Runs.last_nap ++ deliver (Sample.response "req-1000" Sample.position)
            ++ Runs.wake_up) (calling Sample.get_gps Sample.ready)) = Some JNull ∧
  pending_requests
    (shared (run (Runs.last_nap ++ deliver (Sample.response "req-1000" Sample.position)
                    ++ Runs.wake_up) (calling Sample.get_gps Sample.ready))) !! "req-1000"
    = None.
Proof. repeat split; vm_compute; reflexivity. Qed.

Lemma turns_not_for rid n : Forall (not_for rid) (Sample.turns n).
Proof. induction n as [|n IH]; simpl; repeat constructor. exact IH. Qed.

Lemma timeout_purges_slot_witness :
  returned (run (A_tick 7 :: Sample.turns 302) Runs.waiting) = Some JNull ∧
  L_timeout "req-1000" ∈ console (shared (run (A_tick 7 :: Sample.turns 302) Runs.waiting)) ∧
  pending_requests (shared (run (A_tick 7 :: Sample.turns 302) Runs.waiting)) !! "req-1000"
    = None.
Proof.
  apply (timeout_purges_slot Runs.waiting Sample.get_gps "req-1000" 1000000
           (SC_test "req-1000" 1000000)).
  - vm_compute; reflexivity.
  - left; reflexivity.
  - vm_compute; exact I.
  - vm_compute; reflexivity.
  - constructor; [exact I|apply turns_not_for].
  - vm_compute. lia.
Defined.

(** C3, as the claim has it, fails: the value returned on a timeout is
    [None] whatever the correlation id was; the id is on the printed
    line only.  Two calls with different ids time out and return the
    same value. *)
Lemma timeout_returns_None :
  returned (run Runs.in_vain (calling Sample.get_gps Sample.ready)) = Some JNull ∧
  returned (run Runs.in_vain (calling Sample.reboot Runs.ready')) = Some JNull ∧
  console (shared (run Runs.in_vain (calling Sample.get_gps Sample.ready)))
    = [L_sent "get_gps" "req-1000"; L_timeout "req-1000"] ∧
  console (shared (run Runs.in_vain (calling Sample.reboot Runs.ready')))
    = [L_sent "reboot" "req-2000"; L_timeout "req-2000"] ∧
  request_id (clock Sample.ready) ≠ request_id (clock Runs.ready').
Proof. repeat split; try (vm_compute; reflexivity). vm_compute. discriminate. Qed.

(** What the hypothesis on the schedule is for: a response for
    [req-1000] is picked up by the network thread after the call has
    found its deadline passed and before it deletes its slot; line 65
    runs after line 136, and the entry is back when the call returns
    [None]. *)
Remark late_response_leaks_slot :
  returned
    (run (Sample.preamble ++ Sample.turns 300
            ++ [A_main; A_recv (Sample.response "req-1000" Sample.position);
                A_main; A_net; A_main])
       (calling Sample.get_gps Sample.ready)) = Some JNull ∧
  pending_requests
    (shared (run (Sample.preamble ++ Sample.turns 300
                    ++ [A_main; A_recv (Sample.response "req-1000" Sample.position);
                        A_main; A_net; A_main])
               (calling Sample.get_gps Sample.ready))) !! "req-1000"
    = Some Sample.position.
Proof. split; vm_compute; reflexivity. Qed.

(** ** Registration and publication *)

Lemma not_snoc {A} (l : list A) (y : A) : l ≠ l ++ [y].
Proof. intros H. apply (f_equal length) in H. rewrite length_app in H. simpl in H. lia. Qed.

Lemma step_other_wire c x :
  is_main x = false →
  wire (shared (step c x)) = wire (shared c) ∨
  ∃ t, wire (shared (step c x)) = wire (shared c) ++ [T_subscribe t].
Proof.
  intros Hx. destruct x; try discriminate Hx.
  - rewrite step_recv. destruct (net c); try (by left). simpl.
    destruct (on_message_check_route msg (shared c)) as (st' & Hc & _ & _ & Hw & _).
    rewrite Hc. by left.
  - simpl. destruct (net c); try (by left). unfold on_connect_flag.
    destruct (rc =? 0); by left.
  - simpl. destruct (net c) as [|k data|[|t todo]]; try (by left). right. by exists t.
  - by left.
Qed.

Lemma registering_step a c x :
  wait_response a = true → registering a c → registering a (step c x).
Proof.
  intros Hw (pc & Hm & Hpc). destruct (is_main x) eqn:Hx.
  - destruct x; try discriminate Hx. unfold registering. simpl. rewrite Hm.
    destruct pc; simpl; rewrite ?Hw; repeat case_match; simplify_eq; simpl;
      (eexists; split; [reflexivity|]); simpl; try done.
    + by eexists.
    + split; [done|]. rewrite lookup_insert_eq. by eexists.
  - exists pc. rewrite step_other_main; [|done]. split; [done|].
    destruct pc; try done. destruct Hpc as [Hid [v Hv]]. split; [done|].
    destruct x; try discriminate Hx.
    + rewrite step_recv. destruct (net c); try (by eexists). simpl.
      destruct (on_message_check_route msg (shared c)) as (st' & Hc & _ & Hp & _).
      rewrite Hc. simpl. rewrite Hp. by eexists.
    + simpl. destruct (net c); try (by eexists). unfold on_connect_flag.
      destruct (rc =? 0); by eexists.
    + simpl. destruct (net c) as [|k data|[|t todo]]; try (by eexists). simpl.
      destruct (decide (k = rid)) as [->|Hne];
        [rewrite lookup_insert_eq|rewrite lookup_insert_ne]; by eauto.
    + by eexists.
Qed.

(** C6.  In every run of a call that waits for its response, under
    every schedule, the step that publishes is a step of the call at
    line 122; the topic it publishes to ends in the id that line 110
    made, and that id is in [pending_requests] in the state in which the
    step is taken: the slot was registered before. *)
Theorem register_before_publish (a : args) (st : state) (sched : list action) (x : action)
    (t : string) (m : json) :
  wait_response a = true →
  wire (shared (step (run sched (calling a st)) x))
    = wire (shared (run sched (calling a st))) ++ [T_publish t m] →
  ∃ rid, x = A_main ∧ main (run sched (calling a st)) = In_send a (SC_publish rid) ∧
         t = rpc_topic rid ∧ m = message a ∧ (∃ t0, rid = request_id t0) ∧
         is_Some (pending_requests (shared (run sched (calling a st))) !! rid).
Proof.
  intros Hw Hwire.
  assert (Hreg : registering a (run sched (calling a st))).
  { apply (run_invariant (λ _, True)); [intros; by apply registering_step| |].
    - by apply Forall_forall.
    - by exists SC_entry. }
  set (c := run sched (calling a st)) in *.
  destruct Hreg as (pc & Hm & Hpc).
  destruct (is_main x) eqn:Hx.
  - destruct x; try discriminate Hx. simpl in Hwire. rewrite Hm in Hwire.
    destruct pc; simpl in Hwire;
      repeat (case_match; simpl in Hwire; simplify_eq);
      try (by apply not_snoc in Hwire).
    all: apply app_inv_head in Hwire; injection Hwire as <- <-.
    all: destruct Hpc as [Hid Hs]; by exists rid.
  - destruct (step_other_wire c x Hx) as [Heq|[t' Heq]]; rewrite Heq in Hwire.
    + by apply not_snoc in Hwire.
    + apply app_inv_head in Hwire. discriminate Hwire.
Qed.

Lemma register_before_publish_witness :
  ∃ rid, A_main = A_main ∧
    main (run [A_main; A_recv Sample.garbage; A_main; A_tick 3; A_main]
            (calling Sample.get_gps Sample.ready))
      = In_send Sample.get_gps (SC_publish rid) ∧
    rpc_topic "req-1000" = rpc_topic rid ∧
    message Sample.get_gps = message Sample.get_gps ∧ (∃ t0, rid = request_id t0) ∧
    is_Some (pending_requests
               (shared (run [A_main; A_recv Sample.garbage; A_main; A_tick 3; A_main]
                          (calling Sample.get_gps Sample.ready))) !! rid).
Proof.
  apply (register_before_publish Sample.get_gps Sample.ready
           [A_main; A_recv Sample.garbage; A_main; A_tick 3; A_main] A_main).
  - reflexivity.
  - vm_compute; reflexivity.
Defined.

(** C10, as the code has it.  What line 106 tests is the flag
    [connected].  A call made while the flag is false returns [None] at
    its first step: it prints [Not connected to broker], calls nothing
    on the transport and leaves [pending_requests] and the flag as they
    were; whatever happens afterwards the returned value stays [None].
    The timeout path of lines 137 and 138 returns the same value
    [None], so the two outcomes cannot be told apart by the returned
    value.  A call made while the flag is true goes on, whether the
    client is connected or not: [disconnect] leaves the flag set, and
    a waiting call made after it registers its slot, publishes, and has
    not returned by then. *)
Theorem not_connected_returns_None (a : args) (st : state) :
  connected st = false →
  step (calling a st) A_main
    = {| shared := print L_not_connected st; main := In_send a (SC_return JNull);
         net := N_idle |} ∧
  wire (shared (step (calling a st) A_main)) = wire st ∧
  pending_requests (shared (step (calling a st) A_main)) = pending_requests st ∧
  (∀ sched, returned (run (A_main :: sched) (calling a st)) = Some JNull) ∧
  (∀ rid st', send_command_step a (SC_report rid) st' = (print (L_timeout rid) st', SC_return JNull)) ∧
  (∀ st1, connected st1 = true → wait_response a = true →
     connected (disconnect st1).1 = true ∧
     wire (shared (run [A_main; A_main; A_main; A_main] (calling a (disconnect st1).1)))
       = wire st1 ++ [T_publish (rpc_topic (request_id (clock st1))) (message a)] ∧
     pending_requests (shared (run [A_main; A_main; A_main; A_main]
                                 (calling a (disconnect st1).1)))
       !! request_id (clock st1) = Some JNull ∧
     returned (run [A_main; A_main; A_main; A_main] (calling a (disconnect st1).1)) = None).
Proof.
  intros Hc.
  assert (Hstep : step (calling a st) A_main
    = {| shared := print L_not_connected st; main := In_send a (SC_return JNull);
         net := N_idle |}) by (simpl; by rewrite Hc).
  rewrite Hstep. split; [done|]. split; [done|]. split; [done|]. split; [|split; [done|]].
  - intros sched. rewrite run_cons, Hstep. by apply returned_run.
  - intros st1 Hc1 Hw. split; [done|].
    unfold run, calling, disconnect. simpl. rewrite Hc1. simpl. rewrite Hw. simpl.
    rewrite Hw. simpl. by rewrite lookup_insert_eq.
Qed.

Lemma not_connected_returns_None_witness :
  step (calling Sample.get_gps (init 1000000 true)) A_main
    = {| shared := print L_not_connected (init 1000000 true);
         main := In_send Sample.get_gps (SC_return JNull); net := N_idle |} ∧
  wire (shared (step (calling Sample.get_gps (init 1000000 true)) A_main))
    = wire (init 1000000 true) ∧
  pending_requests (shared (step (calling Sample.get_gps (init 1000000 true)) A_main))
    = pending_requests (init 1000000 true) ∧
  (∀ sched, returned (run (A_main :: sched) (calling Sample.get_gps (init 1000000 true)))
            = Some JNull) ∧
  (∀ rid st', send_command_step Sample.get_gps (SC_report rid) st'
              = (print (L_timeout rid) st', SC_return JNull)) ∧
  (∀ st1, connected st1 = true → wait_response Sample.get_gps = true →
     connected (disconnect st1).1 = true ∧
     wire (shared (run [A_main; A_main; A_main; A_main]
                     (calling Sample.get_gps (disconnect st1).1)))
       = wire st1 ++ [T_publish (rpc_topic (request_id (clock st1)))
                        (message Sample.get_gps)] ∧
     pending_requests (shared (run [A_main; A_main; A_main; A_main]
                                 (calling Sample.get_gps (disconnect st1).1)))
       !! request_id (clock st1) = Some JNull ∧
     returned (run [A_main; A_main; A_main; A_main]
                 (calling Sample.get_gps (disconnect st1).1)) = None).
Proof.
  apply (not_connected_returns_None Sample.get_gps (init 1000000 true)). reflexivity.
Defined.

(** C10, as the claim has it, fails: the client has been connected and
    [disconnect] has been called, so it is not connected; a call of
    [get_gps] does not return [None] at once: it registers [req-1000],
    publishes its request, prints that it was sent, and waits. *)
Lemma send_after_disconnect :
  connected (disconnect Sample.ready).1 = true ∧
  (disconnect Sample.ready).2 = [T_loop_stop; T_disconnect] ∧
  main (run Sample.preamble (calling Sample.get_gps (disconnect Sample.ready).1))
    = In_send Sample.get_gps (SC_test "req-1000" 1000000) ∧
  wire (shared (run Sample.preamble (calling Sample.get_gps (disconnect Sample.ready).1)))
    = [T_publish (rpc_topic "req-1000") (message Sample.get_gps)] ∧
  console (shared (run Sample.preamble (calling Sample.get_gps (disconnect Sample.ready).1)))
    = [L_sent "get_gps" "req-1000"] ∧
  pending_requests
    (shared (run Sample.preamble (calling Sample.get_gps (disconnect Sample.ready).1)))
    !! "req-1000" = Some JNull ∧
  returned (run Sample.preamble (calling Sample.get_gps (disconnect Sample.ready).1)) = None.
Proof. repeat split; vm_compute; reflexivity. Qed.

(** ** Correlation ids *)

Lemma request_id_inj_ms (t1 t2 : Z) :
  request_id t1 = request_id t2 → millis t1 = millis t2.
Proof.
  unfold request_id. intros H. simpl in H. injection H as H. by apply (inj pretty).
Qed.

(** C4, as the code has it.  Line 110 makes the id from
    [int(time.time() * 1000)] and from nothing else: two calls get the
    same id exactly when that integer is the same for their readings of
    the clock.  The id a call holds at line 117 is the one made from
    the clock at line 110, and registering it leaves one slot for that
    id in the dict, whether one was there before or not: a call that
    is given the id of an outstanding slot resets that slot. *)
Theorem request_id_per_millisecond (t1 t2 : Z) (a : args) (st : state) :
  wait_response a = true →
  (request_id t1 = request_id t2 ↔ millis t1 = millis t2) ∧
  send_command_step a SC_genid st = (st, SC_register (request_id (clock st))) ∧
  pending_requests (send_command_step a (SC_register (request_id t1)) st).1 !! request_id t2
  = (if decide (millis t1 = millis t2) then Some JNull
     else pending_requests st !! request_id t2).
Proof.
  intros Hw. split; [split; [apply request_id_inj_ms|]|split; [done|]].
  - unfold request_id. by intros ->.
  - simpl. rewrite Hw. simpl. case_decide as Hq.
    + unfold request_id. rewrite Hq. by rewrite lookup_insert_eq.
    + rewrite lookup_insert_ne; [done|]. intros Heq. by apply request_id_inj_ms in Heq.
Qed.

Lemma request_id_per_millisecond_witness :
  (request_id 1000000 = request_id 1001000 ↔ millis 1000000 = millis 1001000) ∧
  send_command_step Sample.reboot SC_genid Sample.two_pending
    = (Sample.two_pending, SC_register (request_id (clock Sample.two_pending))) ∧
  pending_requests (send_command_step Sample.reboot (SC_register (request_id 1000000))
                      Sample.two_pending).1 !! request_id 1001000
  = (if decide (millis 1000000 = millis 1001000) then Some JNull
     else pending_requests Sample.two_pending !! request_id 1001000).
Proof.
  apply (request_id_per_millisecond 1000000 1001000 Sample.reboot Sample.two_pending).
  reflexivity.
Defined.

(** The integer of line 110 is not always the millisecond of the
    clock: the reading of 1.001 seconds times 1000 is just below 1001,
    so that a call at 1.000 s and a call a full millisecond later get
    the same id, and two calls within the millisecond of 1.001 s get
    different ones. *)
Example millis_rounded :
  millis 1000000 = 1000 ∧ millis 1001000 = 1000 ∧ millis 1001500 = 1001 ∧
  request_id 1000000 = request_id 1001000 ∧
  request_id 1001000 ≠ request_id 1001500.
Proof. repeat split; try (vm_compute; reflexivity). vm_compute. discriminate. Qed.

(** C4, as the claim has it, fails: [get_gps] has registered
    [req-1000] and waits; 400 microseconds after it started, a second
    call, [reboot], is made on the same client and line 110 gives it
    [req-1000] too, while the slot of the first is outstanding. *)
Lemma same_millisecond_same_id :
  main (run (Sample.preamble ++ [A_tick 400]) (calling Sample.get_gps Sample.ready))
    = In_send Sample.get_gps (SC_test "req-1000" 1000000) ∧
  pending_requests
    (shared (run (Sample.preamble ++ [A_tick 400]) (calling Sample.get_gps Sample.ready)))
    !! "req-1000" = Some JNull ∧
  clock (shared (run (Sample.preamble ++ [A_tick 400]) (calling Sample.get_gps Sample.ready)))
    = 1000400 ∧
  main (run [A_main; A_main]
          (Races.second_call Sample.reboot
             (run (Sample.preamble ++ [A_tick 400]) (calling Sample.get_gps Sample.ready))))
    = In_send Sample.reboot (SC_register "req-1000") ∧
  request_id 1000000 = request_id 1000400.
Proof. repeat split; vm_compute; reflexivity. Qed.

(** C5, as the code has it.  Line 118 is a plain assignment: for every
    state of [pending_requests], registering [rid] succeeds, leaves the
    slot of [rid] holding [None], whatever it held, and goes on to
    publish; the other slots are untouched. *)
Theorem register_overwrites (a : args) (st : state) (rid : string) :
  wait_response a = true →
  send_command_step a (SC_register rid) st
    = (set_pending (<[rid := JNull]> (pending_requests st)) st, SC_publish rid) ∧
  pending_requests (send_command_step a (SC_register rid) st).1 !! rid = Some JNull ∧
  (∀ k, k ≠ rid →
     pending_requests (send_command_step a (SC_register rid) st).1 !! k = pending_requests st !! k).
Proof.
  intros Hw. simpl. rewrite Hw. simpl. repeat split.
  - by rewrite lookup_insert_eq.
  - intros k Hk. by rewrite lookup_insert_ne.
Qed.

Lemma register_overwrites_witness :
  send_command_step Sample.get_gps (SC_register "req-1000") Sample.stored
    = (set_pending (<["req-1000" := JNull]> (pending_requests Sample.stored))
         Sample.stored, SC_publish "req-1000") ∧
  pending_requests (send_command_step Sample.get_gps (SC_register "req-1000") Sample.stored).1
    !! "req-1000" = Some JNull ∧
  (∀ k, k ≠ "req-1000" →
     pending_requests (send_command_step Sample.get_gps (SC_register "req-1000") Sample.stored).1
       !! k = pending_requests Sample.stored !! k).
Proof.
  apply (register_overwrites Sample.get_gps Sample.stored "req-1000"). reflexivity.
Defined.

(** C5, as the claim has it, fails: [req-1000] is registered and holds
    a response; registering [req-1000] again raises nothing, goes on to
    line 121 and has replaced the response by [None]. *)
Lemma duplicate_id_accepted :
  pending_requests Sample.stored !! "req-1000" = Some Sample.position ∧
  (send_command_step Sample.get_gps (SC_register "req-1000") Sample.stored).2
    = SC_publish "req-1000" ∧
  pending_requests (send_command_step Sample.get_gps (SC_register "req-1000") Sample.stored).1
    !! "req-1000" = Some JNull.
Proof. repeat split; vm_compute; reflexivity. Qed.

(** ** Connecting *)

Lemma step_connected c x :
  connected (shared c) = true → connected (shared (step c x)) = true.
Proof.
  intros Hc. destruct x.
  - simpl. destruct (main c) as [pc|a pc]; destruct pc; simpl;
      repeat case_match; simplify_eq; done.
  - rewrite step_recv. destruct (net c); try done. simpl.
    destruct (on_message_check_route msg (shared c)) as (st' & Hm & Hq & _).
    rewrite Hm. simpl. by rewrite Hq.
  - simpl. destruct (net c); try done. unfold on_connect_flag. by destruct (rc =? 0).
  - simpl. by destruct (net c) as [|k data|[|t todo]].
  - done.
Qed.

Lemma connect_sound_step c x : connect_sound c → connect_sound (step c x).
Proof.
  intros (pc & Hm & Hpc). destruct (is_main x) eqn:Hx.
  - destruct x; try discriminate Hx. unfold connect_sound. simpl. rewrite Hm.
    destruct pc; simpl; repeat case_match; simplify_eq; simpl;
      (eexists; split; [reflexivity|]); simpl; try done.
    by destruct (connected (shared c)).
  - exists pc. rewrite step_other_main; [|done]. split; [done|].
    intros Hr. by apply step_connected, Hpc.
Qed.




(** * Further properties *)

(** ** Every call ends *)

Lemma turns_left_same a s : turns_left a s s = polls a.
Proof. unfold polls, turns_left. f_equal. f_equal. lia. Qed.

Lemma naps_sleep t : 0 < t → (naps (t - 500000) + 1 ≤ naps t)%nat.
Proof.
  unfold naps. intros Ht.
  assert ((t - 500000 + 499999) / 500000 + 1 ≤ (t + 499999) / 500000
          ∧ 1 ≤ (t + 499999) / 500000); [|lia].
  Z.to_euclidean_division_equations. lia.
Qed.

Lemma budget_other c x : is_main x = false → (budget (step c x) ≤ budget c)%nat.
Proof.
  intros Hx. unfold budget. rewrite step_other_main; [|done].
  pose proof (step_clock c x) as Hclock.
  destruct (main c) as [pc|a pc]; [done|].
  destruct pc; try done; apply cost_mono, turns_left_mono; done.
Qed.

Lemma budget_main c : (budget (step c A_main) ≤ budget c - 1)%nat.
Proof.
  unfold budget. simpl. destruct (main c) as [pc|a pc].
  - destruct pc as [| |t|t| |b]; simpl.
    + destruct (reachable (shared c)); simpl; lia.
    + unfold naps. simpl. lia.
    + destruct (negb (connected (shared c)) && (0 <? t)) eqn:Hb; simpl; [|lia].
      apply andb_true_iff in Hb as [_ Ht]. pose proof (naps_sleep t). lia.
    + lia.
    + destruct (negb (connected (shared c))); simpl; lia.
    + lia.
  - destruct pc; simpl; try lia.
    + destruct (connected (shared c)); simpl; lia.
    + destruct (wait_response a); simpl; lia.
    + destruct (wait_response a); simpl; lia.
    + rewrite turns_left_same. lia.
    + destruct (still_waiting start_time (clock (shared c)) (timeout a)) eqn:Ht; simpl.
      * assert (1 ≤ turns_left a start_time (clock (shared c)))%nat
          by (apply turns_left_early; by apply still_waiting_true).
        destruct (turns_left _ _ _); simpl; lia.
      * lia.
    + destruct (pending_requests (shared c) !! rid) as [v|]; simpl;
        [destruct (is_None v); simpl|]; destruct (turns_left _ _ _); simpl; lia.
    + destruct (pending_requests (shared c) !! rid); simpl; lia.
    + destruct (pending_requests (shared c) !! rid); simpl; lia.
    + rewrite turns_left_sleep. destruct (turns_left _ _ _); simpl; lia.
    + destruct (pending_requests (shared c) !! rid); simpl; lia.
Qed.

Lemma budget_run sched c :
  (budget c ≤ main_steps sched)%nat → budget (run sched c) = 0%nat.
Proof.
  intros H.
  assert (Hle : (budget (run sched c) ≤ 0)%nat); [|lia].
  apply (run_ranked (λ _, True) (λ n c, (budget c ≤ n)%nat)) with (n := budget c);
    [..|by apply Forall_forall|done|done].
  - intros n c' x _ Hx Hn. pose proof (budget_other c' x Hx). lia.
  - intros n c' Hn. pose proof (budget_main c'). lia.
  - intros c' Hn. pose proof (budget_main c'). lia.
Qed.

Lemma budget_zero c : budget c = 0%nat → finished c.
Proof.
  unfold budget, finished. destruct (main c) as [pc|a pc]; destruct pc; try done;
    try lia; unfold cost; intros H; try lia; destruct (turns_left _ _ _); lia.
Qed.

(** ** What a call holds and returns *)

Lemma step_wire c x : ∃ l, wire (shared (step c x)) = wire (shared c) ++ l.
Proof.
  destruct (is_main x) eqn:Hx.
  - destruct x; try discriminate Hx. simpl.
    destruct (main c) as [pc|a pc]; destruct pc; simpl;
      repeat (case_match; simplify_eq); simpl;
      first [ by exists []; rewrite app_nil_r | by eexists ].
  - destruct (step_other_wire c x Hx) as [->|[t ->]];
      [by exists []; rewrite app_nil_r | by eexists].
Qed.

Lemma published_step a rid c x :
  published a rid (shared c) → published a rid (shared (step c x)).
Proof.
  unfold published. destruct (step_wire c x) as [l ->]. set_solver.
Qed.

Lemma sound_net_step c x : sound_net (net c) → sound_net (net (step c x)).
Proof.
  intros Hn. destruct x.
  - by rewrite step_main_net.
  - rewrite step_recv. destruct (net c) eqn:Hnet; try (by rewrite Hnet). simpl.
    destruct (route _ msg) as [[k data]|] eqn:Hr; [|done]. simpl.
    apply route_Some in Hr as (_ & Hd & Hk & _).
    destruct (payload_id_object _ _ Hk) as (fields & Hd' & Hg).
    rewrite Hd in Hd'. injection Hd' as ->. by exists fields.
  - simpl. destruct (net c) eqn:Hnet; try (by rewrite Hnet).
    unfold on_connect_flag. by destruct (rc =? 0).
  - simpl. destruct (net c) as [|k data|[|t todo]] eqn:Hnet; try done. by rewrite Hnet.
  - done.
Qed.

(** What a step of the network thread or of the clock does to a
    registered slot. *)
Lemma slot_ok_other c x rid :
  is_main x = false → sound_net (net c) →
  slot_ok rid (pending_requests (shared c) !! rid) →
  slot_ok rid (pending_requests (shared (step c x)) !! rid).
Proof.
  intros Hx Hn Hs. destruct x; try discriminate Hx.
  - rewrite step_recv. destruct (net c); try done. simpl.
    destruct (on_message_check_route msg (shared c)) as (st' & Hc & _ & Hp & _).
    rewrite Hc. simpl. by rewrite Hp.
  - simpl. destruct (net c); try done. unfold on_connect_flag. by destruct (rc =? 0).
  - simpl. destruct (net c) as [|k data|[|t todo]]; try done. simpl.
    destruct (decide (k = rid)) as [->|Hne].
    + rewrite lookup_insert_eq. exists data. split; [done|]. by right.
    + by rewrite lookup_insert_ne.
  - done.
Qed.

Lemma is_Some_other c x rid :
  is_main x = false →
  is_Some (pending_requests (shared c) !! rid) →
  is_Some (pending_requests (shared (step c x)) !! rid).
Proof.
  intros Hx Hs. destruct x; try discriminate Hx.
  - rewrite step_recv. destruct (net c); try done. simpl.
    destruct (on_message_check_route msg (shared c)) as (st' & Hc & _ & Hp & _).
    rewrite Hc. simpl. by rewrite Hp.
  - simpl. destruct (net c); try done. unfold on_connect_flag. by destruct (rc =? 0).
  - simpl. destruct (net c) as [|k data|[|t todo]]; try done. simpl.
    destruct (decide (k = rid)) as [->|Hne];
      [rewrite lookup_insert_eq|rewrite lookup_insert_ne]; by eauto.
  - done.
Qed.

Lemma sound_pc_other a pc c x :
  is_main x = false → sound_net (net c) →
  sound_pc a pc (shared c) → sound_pc a pc (shared (step c x)).
Proof.
  intros Hx Hn H.
  destruct pc; simpl in *; try done.
  - intros Hw. by apply slot_ok_other, H.
  - destruct H as (? & ? & ?). repeat split; [done|by apply published_step|by apply slot_ok_other].
  - destruct H as (? & ? & ?). repeat split; [done|by apply published_step|by apply slot_ok_other].
  - destruct H as (? & ? & ?). repeat split; [done|by apply published_step|by apply slot_ok_other].
  - destruct H as (? & ? & ?). repeat split; [done|by apply published_step|by apply slot_ok_other].
  - destruct H as (? & ? & ?). repeat split; [by apply published_step|by apply is_Some_other|done].
  - destruct H as (? & ? & ?). repeat split; [done|by apply published_step|by apply slot_ok_other].
  - by apply is_Some_other.
  - destruct H as [H|[H|(rid & Hc & Hp)]]; [by left|by right; left|].
    right; right. exists rid. split; [done|]. by apply published_step.
Qed.

Lemma sound_pc_main a pc st :
  sound_pc a pc st →
  sound_pc a (send_command_step a pc st).2 (send_command_step a pc st).1.
Proof.
  intros H. destruct pc; simpl in *.
  - destruct (connected st); simpl; [done|by left].
  - done.
  - destruct (wait_response a) eqn:Hw; simpl; [|by rewrite Hw].
    intros _. rewrite lookup_insert_eq. exists JNull. split; [done|by left].
  - destruct (wait_response a) eqn:Hw; simpl.
    + split; [done|]. split; [unfold published; simpl; set_solver|]. by apply H.
    + right; left. done.
  - done.
  - destruct (still_waiting _ _ _); simpl; [done|].
    destruct H as (_ & _ & v & Hv & _). by rewrite Hv.
  - destruct H as (Hw & Hp & v & Hv & Hs). rewrite Hv.
    destruct (is_None v); simpl; repeat split; try done; by exists v.
  - destruct H as (Hw & Hp & v & Hv & Hs). rewrite Hv. simpl.
    repeat split; try done; by rewrite Hv.
  - destruct H as (Hp & [w Hw] & Hv). rewrite Hw. simpl.
    destruct Hv as [->|Hv]; [by left|]. right; right. by exists rid.
  - done.
  - destruct H as [w Hw]. by rewrite Hw.
  - by left.
  - done.
  - done.
Qed.

Lemma sound_step c x : sound c → sound (step c x).
Proof.
  intros [Hn Hm]. split; [by apply sound_net_step|].
  destruct (is_main x) eqn:Hx.
  - destruct x; try discriminate Hx. simpl.
    destruct (main c) as [pc|a pc]; [by destruct (connect_step pc (shared c))|].
    pose proof (sound_pc_main a pc (shared c) Hm) as H.
    by destruct (send_command_step a pc (shared c)).
  - rewrite step_other_main; [|done].
    destruct (main c) as [pc|a pc]; [done|]. by apply sound_pc_other.
Qed.

Lemma sound_run sched c : sound c → sound (run sched c).
Proof.
  intros H. apply (run_invariant (λ _, True)); [intros; by apply sound_step| |done].
  by apply Forall_forall.
Qed.

Lemma sound_calling a st : sound (calling a st).
Proof. done. Qed.

Lemma main_send_step a pc c x :
  main c = In_send a pc → ∃ pc', main (step c x) = In_send a pc'.
Proof.
  intros Hm. destruct (is_main x) eqn:Hx.
  - destruct x; try discriminate Hx. simpl. rewrite Hm.
    destruct (send_command_step a pc (shared c)). by eexists.
  - rewrite step_other_main; [|done]. by eexists.
Qed.

Lemma main_send_run a sched c :
  (∃ pc, main c = In_send a pc) → ∃ pc, main (run sched c) = In_send a pc.
Proof.
  intros H. apply (run_invariant (λ _, True) (λ c, ∃ pc, main c = In_send a pc));
    [|by apply Forall_forall|done].
  intros c' x _ [pc Hm]. by eapply main_send_step.
Qed.


(** X2.  [send_command] returns.  Under every schedule, a call has
    returned a value once it has taken three steps for every poll its
    timeout allows, the one at the deadline counted in, and eight
    more; for the default timeout of 30 seconds that is 301 polls and
    911 steps. *)
Theorem send_command_returns (a : args) (st : state) (sched : list action) :
  (3 * polls a + 8 ≤ main_steps sched)%nat →
  ∃ v, returned (run sched (calling a st)) = Some v.
Proof.
  intros Hsteps.
  pose proof (budget_zero _ (budget_run sched (calling a st) Hsteps)) as Hfin.
  pose proof (sound_run sched (calling a st) (sound_calling a st)) as [_ Hs].
  destruct (main_send_run a sched (calling a st)) as [pc Hm]; [by eexists|].
  unfold finished in Hfin. unfold returned. rewrite Hm in *.
  destruct pc; try done. by eexists.
Qed.

Lemma send_command_returns_witness :
  ∃ v, returned (run (Sample.turns 304) (calling Sample.get_gps Sample.ready)) = Some v.
Proof.
  apply (send_command_returns Sample.get_gps Sample.ready (Sample.turns 304)).
  vm_compute. lia.
Defined.

(** X3.  What [send_command] returns.  Under every schedule, the value
    a call has returned is [None], or the marker of line 140 when the
    call did not wait, or a response object whose [id] is the id under
    which this very call published its request: a call never returns a
    response that carries another id. *)
Theorem send_command_returns_own_response (a : args) (st : state) (sched : list action)
    (v : json) :
  returned (run sched (calling a st)) = Some v →
  v = JNull ∨ (wait_response a = false ∧ v = sent) ∨
  ∃ rid, carries rid v ∧ published a rid (shared (run sched (calling a st))).
Proof.
  intros Hret.
  pose proof (sound_run sched (calling a st) (sound_calling a st)) as [_ Hs].
  destruct (main_send_run a sched (calling a st)) as [pc Hm]; [by eexists|].
  unfold returned in Hret. rewrite Hm in *. destruct pc; try done.
  by injection Hret as <-.
Qed.

Lemma send_command_returns_own_response_witness :
  Sample.position = JNull ∨ (wait_response Sample.get_gps = false ∧ Sample.position = sent) ∨
  ∃ rid, carries rid Sample.position ∧
         published Sample.get_gps rid
           (shared (run (Sample.preamble ++ Sample.turn
                           ++ deliver (Sample.response "req-1000" Sample.position)
                           ++ [A_main; A_main; A_main; A_main])
                      (calling Sample.get_gps Sample.ready))).
Proof.
  apply (send_command_returns_own_response Sample.get_gps Sample.ready
           (Sample.preamble ++ Sample.turn
              ++ deliver (Sample.response "req-1000" Sample.position)
              ++ [A_main; A_main; A_main; A_main])).
  vm_compute; reflexivity.
Defined.

(** ** A call that does not wait *)

Lemma forgetting_other a D n c x :
  is_main x = false → forgetting a D n c → forgetting a D n (step c x).
Proof.
  intros Hx (Hc & Hd & Hn & Hm).
  split; [by apply step_connected|].
  rewrite step_other_main; [|done].
  assert (Hpub : ∀ rid, published a rid (shared c) → published a rid (shared (step c x)))
    by (intros; by apply published_step).
  assert (Hrest : dom (pending_requests (shared (step c x))) = D ∧
                  match net (step c x) with N_store k _ => k ∈ D | _ => True end).
  { destruct x; try discriminate Hx.
    - rewrite step_recv. destruct (net c) eqn:Hnet; try (by rewrite ?Hnet). simpl.
      destruct (on_message_check_route msg (shared c)) as (st' & Hck & _ & Hp & _).
      rewrite Hck. simpl. rewrite Hp. split; [done|].
      destruct (route _ msg) as [[k data]|] eqn:Hr; [|done]. simpl.
      apply route_Some in Hr as (_ & _ & _ & Hs). rewrite <- Hd. by apply elem_of_dom.
    - simpl. destruct (net c) eqn:Hnet; try (by rewrite ?Hnet).
      unfold on_connect_flag. by destruct (rc =? 0).
    - simpl. destruct (net c) as [|k data|[|t todo]] eqn:Hnet; try (by rewrite ?Hnet).
      simpl. split; [|done]. simpl in Hn. rewrite dom_insert_L, Hd.
      apply subseteq_union_1_L. by apply singleton_subseteq_l.
    - done. }
  destruct Hrest as [Hd' Hn']. repeat split; try done.
  destruct n as [|[|[|[|[|n]]]]]; try done.
  destruct Hm as [Hm [rid Hp]]. split; [done|]. exists rid. by apply Hpub.
Qed.

Lemma forgetting_down a D n c :
  wait_response a = false → forgetting a D (S n) c → forgetting a D n (step c A_main).
Proof.
  intros Hw (Hc & Hd & Hn & Hm). pose proof (step_main_net c) as Hnet.
  destruct n as [|[|[|[|n]]]]; try done; unfold forgetting; rewrite Hnet; simpl.
  - destruct Hm as [rid Hm]. rewrite Hm. simpl. rewrite Hw. simpl.
    repeat split; try done. exists rid. unfold published. simpl. set_solver.
  - destruct Hm as [rid Hm]. rewrite Hm. simpl. rewrite Hw. simpl.
    repeat split; try done. by exists rid.
  - rewrite Hm. simpl. repeat split; try done. by eexists.
  - rewrite Hm. simpl. rewrite Hc. simpl. done.
Qed.

Lemma forgetting_zero a D c : forgetting a D 0 c → forgetting a D 0 (step c A_main).
Proof.
  intros (Hc & Hd & Hn & Hm & Hp). unfold forgetting. rewrite step_main_net. simpl.
  rewrite Hm. simpl. done.
Qed.

(** X4.  A call that does not wait, on a connected client: under every
    schedule, four steps of its own are enough for it to have returned
    the marker [{"status": "sent"}]; its request is on the wire; and the
    ids registered in [pending_requests] are the same as before the
    call, so that a call that does not wait leaves no slot behind. *)
Theorem send_command_without_waiting (a : args) (st : state) (sched : list action) :
  wait_response a = false → connected st = true → (4 ≤ main_steps sched)%nat →
  returned (run sched (calling a st)) = Some sent ∧
  (∃ rid, published a rid (shared (run sched (calling a st)))) ∧
  dom (pending_requests (shared (run sched (calling a st)))) = dom (pending_requests st).
Proof.
  intros Hw Hc Hsteps.
  assert (H4 : forgetting a (dom (pending_requests st)) 4 (calling a st)) by done.
  apply (run_ranked (λ _, True) (forgetting a (dom (pending_requests st))))
    with (sched := sched) in H4; [..|by apply Forall_forall|done].
  - destruct H4 as (_ & Hd & _ & Hm & Hp). repeat split; try done.
    unfold returned. by rewrite Hm.
  - intros. by apply forgetting_other.
  - intros. by apply forgetting_down.
  - apply forgetting_zero.
Qed.

Lemma send_command_without_waiting_witness :
  returned (run [A_main; A_recv Sample.garbage; A_main; A_main; A_tick 5; A_main]
              (calling {| cmd_type := "reboot"; params := JNull; wait_response := false;
                          timeout := 30000000 |} Sample.two_pending)) = Some sent ∧
  (∃ rid, published {| cmd_type := "reboot"; params := JNull; wait_response := false;
                       timeout := 30000000 |} rid
            (shared (run [A_main; A_recv Sample.garbage; A_main; A_main; A_tick 5; A_main]
                       (calling {| cmd_type := "reboot"; params := JNull;
                                   wait_response := false; timeout := 30000000 |}
                          Sample.two_pending)))) ∧
  dom (pending_requests
         (shared (run [A_main; A_recv Sample.garbage; A_main; A_main; A_tick 5; A_main]
                    (calling {| cmd_type := "reboot"; params := JNull;
                                wait_response := false; timeout := 30000000 |}
                       Sample.two_pending))))
  = dom (pending_requests Sample.two_pending).
Proof.
  apply (send_command_without_waiting
           {| cmd_type := "reboot"; params := JNull; wait_response := false;
              timeout := 30000000 |} Sample.two_pending
           [A_main; A_recv Sample.garbage; A_main; A_main; A_tick 5; A_main]).
  - reflexivity.
  - reflexivity.
  - simpl; lia.
Defined.

(** ** The flag *)

Lemma connected_run sched c :
  connected (shared c) = true → connected (shared (run sched c)) = true.
Proof.
  intros H. apply (run_invariant (λ _, True) (λ c, connected (shared c) = true));
    [intros; by apply step_connected|by apply Forall_forall|done].
Qed.

(** X5.  Nothing clears [connected].  Once the flag is set it stays
    set under every schedule, whatever either thread does, and
    [disconnect] does not clear it either: a call made after
    [disconnect] on a client that was connected passes the check of
    line 106 and goes on to make its id and publish. *)
Theorem connected_never_cleared (c : config) (sched : list action) (a : args) :
  connected (shared c) = true →
  connected (shared (run sched c)) = true ∧
  connected (disconnect (shared (run sched c))).1 = true ∧
  main (step (calling a (disconnect (shared (run sched c))).1) A_main) = In_send a SC_genid.
Proof.
  intros H. pose proof (connected_run sched c H) as Hr.
  repeat split; try done. simpl. by rewrite Hr.
Qed.

Lemma connected_never_cleared_witness :
  connected (shared (run (Sample.turns 5) Runs.waiting)) = true ∧
  connected (disconnect (shared (run (Sample.turns 5) Runs.waiting))).1 = true ∧
  main (step (calling Sample.reboot
                (disconnect (shared (run (Sample.turns 5) Runs.waiting))).1) A_main)
    = In_send Sample.reboot SC_genid.
Proof.
  apply (connected_never_cleared Runs.waiting (Sample.turns 5) Sample.reboot).
  vm_compute; reflexivity.
Defined.

(** ** [connect] *)

Lemma main_connect_step pc c x :
  main c = In_connect pc → ∃ pc', main (step c x) = In_connect pc'.
Proof.
  intros Hm. destruct (is_main x) eqn:Hx.
  - destruct x; try discriminate Hx. simpl. rewrite Hm.
    destruct (connect_step pc (shared c)). by eexists.
  - rewrite step_other_main; [|done]. by eexists.
Qed.

Lemma connect_explained_step c x : connect_explained c → connect_explained (step c x).
Proof.
  intros (pc & Hm & Hpc). destruct (is_main x) eqn:Hx.
  - destruct x; try discriminate Hx. unfold connect_explained. simpl. rewrite Hm.
    destruct pc; simpl; repeat (case_match; simplify_eq); simpl;
      (eexists; split; [reflexivity|]); simpl; try done; intros _.
    + right. set_solver.
    + left. set_solver.
  - exists pc. rewrite step_other_main; [|done]. split; [done|].
    intros Hr. destruct (Hpc Hr); [left|right]; by apply step_console.
Qed.

(** X6.  [connect] returns.  Under every schedule, 44 steps of its own
    are enough for [connect] to have returned [True] or [False]: it
    sleeps at most twenty times.  When it has returned [True] the flag
    is set; when it has returned [False] it has printed either
    [Failed to connect within timeout] or the connection error. *)
Theorem connect_returns (st : state) (sched : list action) :
  (44 ≤ main_steps sched)%nat →
  ∃ b, returned (run sched (connecting st)) = Some (JBool b) ∧
       (b = true → connected (shared (run sched (connecting st))) = true) ∧
       (b = false →
        L_connect_timeout ∈ console (shared (run sched (connecting st))) ∨
        L_connection_error OSError ∈ console (shared (run sched (connecting st)))).
Proof.
  intros Hsteps.
  pose proof (budget_zero _ (budget_run sched (connecting st) Hsteps)) as Hfin.
  assert (Hs : connect_sound (run sched (connecting st))).
  { apply (run_invariant (λ _, True)); [intros; by apply connect_sound_step| |].
    - by apply Forall_forall.
    - by exists CN_entry. }
  assert (He : connect_explained (run sched (connecting st))).
  { apply (run_invariant (λ _, True)); [intros; by apply connect_explained_step| |].
    - by apply Forall_forall.
    - by exists CN_entry. }
  destruct Hs as (pc & Hm & Hs). destruct He as (pc' & Hm' & He).
  rewrite Hm in Hm'. injection Hm' as <-.
  unfold finished in Hfin. unfold returned. rewrite Hm in *.
  destruct pc as [| | | | |b]; try done. exists b. split; [done|]. split.
  - intros ->. by apply Hs.
  - intros ->. by apply He.
Qed.

Lemma connect_returns_witness :
  ∃ b, returned (run (connack 0 ++ Sample.turns 15) (connecting (init 0 true)))
       = Some (JBool b) ∧
       (b = true →
        connected (shared (run (connack 0 ++ Sample.turns 15) (connecting (init 0 true))))
        = true) ∧
       (b = false →
        L_connect_timeout
          ∈ console (shared (run (connack 0 ++ Sample.turns 15) (connecting (init 0 true)))) ∨
        L_connection_error OSError
          ∈ console (shared (run (connack 0 ++ Sample.turns 15) (connecting (init 0 true))))).
Proof.
  apply (connect_returns (init 0 true) (connack 0 ++ Sample.turns 15)).
  vm_compute. lia.
Defined.

Lemma giving_up_step w0 c0 c x : no_ack x → giving_up w0 c0 c → giving_up w0 c0 (step c x).
Proof.
  intros Hx (Hc & Hn & pc & Hm & Hpc). destruct (is_main x) eqn:Hmx.
  - destruct x; try discriminate Hmx. unfold giving_up. rewrite step_main_net.
    simpl. rewrite Hm.
    destruct pc as [| |t|t| |b]; simpl.
    + destruct Hpc as (-> & Hw & Hk). simpl. repeat split; try done.
      eexists; split; [done|]. simpl. by rewrite Hw.
    + destruct Hpc as (Hw & Hk). repeat split; try done.
      eexists; split; [done|]. simpl. rewrite Hw, <- app_assoc. split; [done|lia].
    + destruct Hpc as (Hw & Hk). rewrite Hc. simpl.
      destruct (0 <? t) eqn:Ht; simpl; repeat split; try done;
        (eexists; split; [done|]); simpl; split; try done. lia.
    + destruct Hpc as (Hw & Hk). repeat split; try done.
      eexists; split; [done|]. simpl. split; [done|lia].
    + destruct Hpc as (Hw & Hk). rewrite Hc. simpl. repeat split; try done.
      eexists; split; [done|]. simpl. repeat split; try done. set_solver.
    + repeat split; try done. by eexists.
  - assert (Hframe : connected (shared (step c x)) = false ∧
                     wire (shared (step c x)) = wire (shared c) ∧
                     match net (step c x) with N_subscribe _ => False | _ => True end).
    { destruct x; try discriminate Hmx.
      - rewrite step_recv. destruct (net c) eqn:Hnet; try (by rewrite ?Hnet). simpl.
        destruct (on_message_check_route msg (shared c)) as (st' & Hck & Hq & _ & Hw & _).
        rewrite Hck. simpl. rewrite Hq, Hw. repeat split; try done.
        by destruct (route _ msg) as [[??]|].
      - simpl. destruct (net c) eqn:Hnet; try (by rewrite ?Hnet). unfold on_connect_flag.
        simpl in Hx. by destruct (Z.eqb_spec rc 0).
      - simpl. destruct (net c) as [|k data|[|t todo]] eqn:Hnet; try done;
          repeat split; try done; by rewrite Hnet.
      - done. }
    destruct Hframe as (Hc' & Hw' & Hn'). repeat split; try done.
    exists pc. rewrite step_other_main; [|done]. split; [done|].
    pose proof (step_clock c x) as Hclock.
    pose proof (step_console c x L_connect_timeout) as Hcons.
    assert (Hr : reachable (shared (step c x)) = reachable (shared c)).
    { destruct x; try discriminate Hmx.
      - rewrite step_recv. destruct (net c); try done. simpl.
        destruct (on_message_check_route msg (shared c)) as (st' & Hck & _ & _ & _ & _ & Hr).
        by rewrite Hck.
      - simpl. destruct (net c); try done. unfold on_connect_flag. by destruct (rc =? 0).
      - simpl. by destruct (net c) as [|k data|[|t todo]].
      - done. }
    destruct pc; rewrite ?Hw', ?Hr; intuition lia.
Qed.

(** X7.  [connect] gives up after ten seconds.  The socket opens, the
    flag is not set, and no CONNACK that accepts the connection arrives:
    then under every schedule, once [connect] has taken 44 steps it has
    returned [False] and printed [Failed to connect within timeout]; at
    least ten seconds have passed on the clock; and the calls it made on
    the paho client are [connect] and [loop_start] and nothing else, so
    the network loop it started is left running. *)
Theorem connect_gives_up (st : state) (sched : list action) :
  connected st = false → reachable st = true → Forall no_ack sched →
  (44 ≤ main_steps sched)%nat →
  returned (run sched (connecting st)) = Some (JBool false) ∧
  L_connect_timeout ∈ console (shared (run sched (connecting st))) ∧
  wire (shared (run sched (connecting st))) = wire st ++ [T_connect; T_loop_start] ∧
  clock st + 10000000 ≤ clock (shared (run sched (connecting st))).
Proof.
  intros Hc Hr Hsched Hsteps.
  pose proof (budget_zero _ (budget_run sched (connecting st) Hsteps)) as Hfin.
  assert (Hg : giving_up (wire st) (clock st) (run sched (connecting st))).
  { apply (run_invariant no_ack); [intros; by apply giving_up_step|done|].
    repeat split; try done. exists CN_entry. simpl. repeat split; try done; lia. }
  destruct Hg as (_ & _ & pc & Hm & Hpc).
  unfold finished in Hfin. unfold returned. rewrite Hm in *.
  destruct pc as [| | | | |b]; try done. by destruct Hpc as (-> & ? & ? & ?).
Qed.

Lemma connect_gives_up_witness :
  returned (run (A_connack 5 :: Sample.turns 15) (connecting (init 0 true)))
    = Some (JBool false) ∧
  L_connect_timeout
    ∈ console (shared (run (A_connack 5 :: Sample.turns 15) (connecting (init 0 true)))) ∧
  wire (shared (run (A_connack 5 :: Sample.turns 15) (connecting (init 0 true))))
    = wire (init 0 true) ++ [T_connect; T_loop_start] ∧
  clock (init 0 true) + 10000000
    ≤ clock (shared (run (A_connack 5 :: Sample.turns 15) (connecting (init 0 true)))).
Proof.
  apply (connect_gives_up (init 0 true) (A_connack 5 :: Sample.turns 15)).
  - reflexivity.
  - reflexivity.
  - constructor; [simpl; lia|apply Forall_forall; intros x Hx].
    assert (Hm : Forall (λ x, x = A_main) (Sample.turns 15)) by (repeat constructor).
    rewrite Forall_forall in Hm. by rewrite (Hm x Hx).
  - vm_compute. lia.
Defined.

(** ** [_on_message] and the table *)

(** X8.  The keys and the network thread.  No step of the network
    thread or of the clock removes a key of [pending_requests], and the
    only one that can add a key is line 65, which assigns the key that
    line 64 found registered when the callback began.  So a callback
    that runs from line 64 to line 65 with no step of the caller in
    between leaves the registered ids as they were; line 65 makes a key
    only when the caller has deleted the slot since line 64. *)
Theorem on_message_keys (c : config) (x : action) (msg : MQTTMessage) :
  is_main x = false →
  dom (pending_requests (shared (step c x)))
    = match net c, x with
      | N_store k _, A_net => {[k]} ∪ dom (pending_requests (shared c))
      | _, _ => dom (pending_requests (shared c))
      end ∧
  (∀ k data, net c = N_idle → net (step c x) = N_store k data →
     k ∈ dom (pending_requests (shared c))) ∧
  (net c = N_idle →
   dom (pending_requests (shared (run (deliver msg) c)))
   = dom (pending_requests (shared c))).
Proof.
  intros Hx. split; [|split].
  - destruct x; try discriminate Hx.
    + rewrite step_recv. destruct (net c); try done. simpl.
      destruct (on_message_check_route msg0 (shared c)) as (st' & Hc & _ & Hp & _).
      rewrite Hc. simpl. by rewrite Hp.
    + simpl. destruct (net c); try done. unfold on_connect_flag.
      by destruct (rc =? 0).
    + simpl. destruct (net c) as [|k data|[|t todo]]; try done.
      simpl. by rewrite dom_insert_L.
    + by destruct (net c).
  - intros k data Hnet Hstore. destruct x; try discriminate Hx.
    + rewrite step_recv, Hnet in Hstore. simpl in Hstore.
      destruct (route _ msg0) as [[k' data']|] eqn:Hr; [|done].
      injection Hstore as -> ->.
      apply route_Some in Hr as (_ & _ & _ & Hs). by apply elem_of_dom.
    + simpl in Hstore. rewrite Hnet in Hstore. unfold on_connect_flag in Hstore.
      by destruct (rc =? 0).
    + simpl in Hstore. rewrite Hnet in Hstore. simpl in Hstore. congruence.
    + simpl in Hstore. congruence.
  - intros Hnet. unfold deliver. rewrite !run_cons. rewrite step_recv, Hnet.
    destruct (on_message_check_route msg (shared c)) as (st' & Hc & _ & Hp & _).
    simpl. rewrite Hc. simpl.
    destruct (route _ msg) as [[k data]|] eqn:Hr; simpl; [|by rewrite Hp].
    apply route_Some in Hr as (_ & _ & _ & Hs).
    rewrite dom_insert_L, Hp. apply subseteq_union_1_L, singleton_subseteq_l.
    by apply elem_of_dom.
Qed.

Lemma on_message_keys_witness :
  dom (pending_requests
         (shared (step Runs.waiting (A_recv (Sample.response "req-1000" Sample.odd)))))
    = dom (pending_requests (shared Runs.waiting)) ∧
  (∀ k data,
     net Runs.waiting = N_idle →
     net (step Runs.waiting (A_recv (Sample.response "req-1000" Sample.odd)))
       = N_store k data →
     k ∈ dom (pending_requests (shared Runs.waiting))) ∧
  (net Runs.waiting = N_idle →
   dom (pending_requests
          (shared (run (deliver (Sample.response "req-1000" Sample.odd)) Runs.waiting)))
   = dom (pending_requests (shared Runs.waiting))).
Proof.
  apply (on_message_keys Runs.waiting (A_recv (Sample.response "req-1000" Sample.odd))
           (Sample.response "req-1000" Sample.odd)).
  reflexivity.
Defined.

(** X9.  Requests do not see each other's responses.  A message whose
    payload does not carry [rid], whatever its topic and whatever else
    it holds, leaves the slot of [rid] exactly as it was. *)
Theorem on_message_other_id (st : state) (msg : MQTTMessage) (rid : string) :
  payload_id msg ≠ Some rid →
  pending_requests (_on_message st msg).1 !! rid = pending_requests st !! rid.
Proof.
  intros Hne. rewrite on_message_pending.
  destruct (route _ msg) as [[k data]|] eqn:Hr; [|done].
  apply route_Some in Hr as (_ & _ & Hk & _).
  rewrite lookup_insert_ne; [done|]. intros ->. by apply Hne.
Qed.

Lemma on_message_other_id_witness :
  pending_requests
    (_on_message Sample.two_pending (Sample.response "req-2000" Sample.position)).1
    !! "req-2000" = pending_requests Sample.two_pending !! "req-2000".
Proof.
  apply (on_message_other_id Sample.two_pending
           (Sample.response "req-2000" Sample.position) "req-2000").
  vm_compute. discriminate.
Defined.

(** X10.  A response delivered twice.  Handling the same message a
    second time, right after the first, changes nothing in
    [pending_requests]: the table after two deliveries is the table
    after one. *)
Theorem on_message_twice (st : state) (msg : MQTTMessage) :
  pending_requests (_on_message (_on_message st msg).1 msg).1
  = pending_requests (_on_message st msg).1.
Proof.
  rewrite (on_message_pending (_on_message st msg).1 msg).
  rewrite (on_message_pending st msg).
  unfold route.
  destruct (classify (topic msg)); try done.
  destruct (payload_id msg) as [k|]; try done.
  destruct (decoded msg) as [data|e]; try done.
  destruct (pending_requests st !! k) as [v|] eqn:Hk.
  - rewrite lookup_insert_eq. by rewrite insert_insert_eq.
  - by rewrite Hk.
Qed.

(** ** The wrappers *)

Lemma carries_truthy rid v : carries rid v → truthy v = true.
Proof. intros (fields & -> & Hg). by destruct fields. Qed.

Lemma polls_wrapper r :
  polls (wrapper r) = match r with Ota_update _ _ _ => 1201%nat | _ => 301%nat end.
Proof. by destruct r. Qed.

(** X11.  The wrappers wait.  A call of any of the seven wrappers, under
    every schedule, has returned within 911 steps of its own, or 3611
    for [ota_update] with its timeout of 120 seconds: three steps for
    each of the 301 or 1201 polls that the timeout allows, the one at
    the deadline counted in, and eight more.  What it returns is [None]
    or a response whose [id] is the id the call published under, which
    is a true value; it is never the marker of a call that does not
    wait. *)
Theorem wrapper_returns (r : request) (st : state) (sched : list action) :
  (match r with Ota_update _ _ _ => 3611 | _ => 911 end ≤ main_steps sched)%nat →
  ∃ v, returned (run sched (calling (wrapper r) st)) = Some v ∧
       (v = JNull ∨
        truthy v = true ∧
        ∃ rid, carries rid v ∧
               published (wrapper r) rid (shared (run sched (calling (wrapper r) st)))).
Proof.
  intros Hsteps.
  assert (Hbudget : (budget (calling (wrapper r) st) ≤ main_steps sched)%nat).
  { change (budget (calling (wrapper r) st)) with (3 * polls (wrapper r) + 8)%nat.
    rewrite polls_wrapper. destruct r; lia. }
  pose proof (budget_zero _ (budget_run sched (calling (wrapper r) st) Hbudget)) as Hfin.
  pose proof (sound_run sched _ (sound_calling (wrapper r) st)) as [_ Hs].
  destruct (main_send_run (wrapper r) sched (calling (wrapper r) st)) as [pc Hm];
    [by eexists|].
  unfold finished in Hfin. unfold returned. rewrite Hm in *.
  destruct pc; try done. exists v. split; [done|]. simpl in Hs.
  destruct Hs as [->|[[Hw _]|(rid & Hc & Hp)]].
  - by left.
  - by destruct r.
  - right. split; [by eapply carries_truthy|]. by exists rid.
Qed.

Lemma wrapper_returns_witness :
  ∃ v, returned (run (Sample.turns 304) (calling (wrapper Get_stats) Sample.ready)) = Some v ∧
       (v = JNull ∨
        truthy v = true ∧
        ∃ rid, carries rid v ∧
               published (wrapper Get_stats) rid
                 (shared (run (Sample.turns 304) (calling (wrapper Get_stats) Sample.ready)))).
Proof.
  apply (wrapper_returns Get_stats Sample.ready (Sample.turns 304)).
  vm_compute. lia.
Defined.

(** ** [main] *)

(** X12.  The exit code of [main].  When [connect] fails, [main]
    returns 1, having printed nothing and without calling
    [disconnect].  When [connect] succeeds and the command gets no
    response, the wrapper returning [None], [main] prints nothing about
    a result, calls [disconnect] and returns 0: a command that timed
    out is not told apart from success by the exit code. *)
Theorem main_exit_code (c : Cli.cli) (response : json) (st : state) :
  c ≠ Cli.Cli_monitor →
  Cli.main c false response st
    = {| Cli.printed := []; Cli.torn_down := []; Cli.ends := Cli.Exit 1 |} ∧
  Cli.main c true JNull st
    = {| Cli.printed := (Cli.announce c []).1;
         Cli.torn_down := [T_loop_stop; T_disconnect];
         Cli.ends := Cli.Exit 0 |}.
Proof.
  intros Hc. split; [done|].
  destruct c; try done; unfold Cli.main; simpl.
  by destruct (Cli.build_config _ _ _ _).
Qed.

Lemma main_exit_code_witness :
  Cli.main (Cli.Cli_ota "http://host/fw.bin" "1.2" None) false Sample.position Sample.ready
    = {| Cli.printed := []; Cli.torn_down := []; Cli.ends := Cli.Exit 1 |} ∧
  Cli.main (Cli.Cli_ota "http://host/fw.bin" "1.2" None) true JNull Sample.ready
    = {| Cli.printed := (Cli.announce (Cli.Cli_ota "http://host/fw.bin" "1.2" None) []).1;
         Cli.torn_down := [T_loop_stop; T_disconnect];
         Cli.ends := Cli.Exit 0 |}.
Proof.
  apply (main_exit_code (Cli.Cli_ota "http://host/fw.bin" "1.2" None) Sample.position
           Sample.ready).
  discriminate.
Defined.

Lemma say_field_eq before response k1 k2 after out :
  Cli.say_field before response k1 k2 after out =
    match Cli.getitem response k1 with
    | Ok data =>
        match Cli.field data k2 with
        | Ok v => (out ++ [Cli.Value before v after], Ok tt)
        | Raise e => (out, Raise e)
        end
    | Raise e => (out, Raise e)
    end.
Proof.
  unfold Cli.say_field, Cli.andthen, Cli.eval, Cli.say, Cli.field.
  destruct (Cli.getitem response k1) as [data|e]; [|done].
  destruct (Cli.getitem data k2) as [v|e]; [|done].
  by destruct (Cli.printable v).
Qed.

Lemma gps_ends response st :
  Cli.ends (Cli.main Cli.Cli_gps true response st) =
    if truthy response then
      match Cli.getitem response "data" with
      | Raise e => Cli.Uncaught e
      | Ok d =>
          match Cli.field d "latitude", Cli.field d "longitude", Cli.field d "altitude",
                Cli.field d "satellites", Cli.field d "valid" with
          | Ok _, Ok _, Ok _, Ok _, Ok _ => Cli.Exit 0
          | Raise e, _, _, _, _ => Cli.Uncaught e
          | _, Raise e, _, _, _ => Cli.Uncaught e
          | _, _, Raise e, _, _ => Cli.Uncaught e
          | _, _, _, Raise e, _ => Cli.Uncaught e
          | _, _, _, _, Raise e => Cli.Uncaught e
          end
      end
    else Cli.Exit 0.
Proof.
  unfold Cli.main. simpl. unfold Cli.report.
  destruct (truthy response); [|done].
  unfold Cli.andthen at 1. simpl. unfold Cli.andthen, Cli.say. simpl.
  rewrite say_field_eq.
  destruct (Cli.getitem response "data") as [d|e] eqn:Hd; [|done].
  destruct (Cli.field d "latitude"); [|done]. rewrite say_field_eq, Hd.
  destruct (Cli.field d "longitude"); [|done]. rewrite say_field_eq, Hd.
  destruct (Cli.field d "altitude"); [|done]. rewrite say_field_eq, Hd.
  destruct (Cli.field d "satellites"); [|done]. rewrite say_field_eq, Hd.
  by destruct (Cli.field d "valid").
Qed.

Lemma getitem_raises v k e :
  Cli.getitem v k = Raise e → e = KeyError ∨ e = TypeError.
Proof.
  unfold Cli.getitem. destruct v; try (intros [= <-]; by right).
  destruct (dict_get fields k); [done|]. intros [= <-]. by left.
Qed.

Lemma field_object fields k :
  Cli.field (JObj fields) k =
    match dict_get fields k with
    | Some v => if Cli.printable v then Ok v else Raise UnicodeEncodeError
    | None => Raise KeyError
    end.
Proof. unfold Cli.field, Cli.getitem. by destruct (dict_get fields k). Qed.

Lemma field_shown fields k :
  shown fields k ↔ ∃ v, Cli.field (JObj fields) k = Ok v.
Proof.
  rewrite field_object. unfold shown. split.
  - intros (v & -> & ->). by exists v.
  - intros [v H]. destruct (dict_get fields k) as [w|]; [|done].
    destruct (Cli.printable w) eqn:Hw; [|done]. by exists w.
Qed.

Lemma field_raises d k e :
  Cli.field d k = Raise e → e = KeyError ∨ e = TypeError ∨ e = UnicodeEncodeError.
Proof.
  unfold Cli.field. destruct (Cli.getitem d k) as [v|e'] eqn:Hg.
  - destruct (Cli.printable v); [done|]. intros [= <-]. by right; right.
  - intros [= <-]. apply getitem_raises in Hg as [->| ->]; [by left|by right; left].
Qed.

(** X13.  When the [gps] command succeeds.  With [connect] successful,
    [main] for the [gps] subcommand returns 0 exactly when the wrapper
    returned a false value, or a response whose [data] is an object
    that has all of [latitude], [longitude], [altitude], [satellites]
    and [valid] with values that [print] can encode; in every other
    case a [KeyError], a [TypeError] or a [UnicodeEncodeError] leaves
    [main].  [disconnect] is called in both cases. *)
Theorem gps_needs_five_fields (response : json) (st : state) :
  (Cli.ends (Cli.main Cli.Cli_gps true response st) = Cli.Exit 0 ↔
   truthy response = false ∨
   ∃ fields, Cli.getitem response "data" = Ok (JObj fields) ∧
     shown fields "latitude" ∧ shown fields "longitude" ∧
     shown fields "altitude" ∧ shown fields "satellites" ∧
     shown fields "valid") ∧
  (Cli.ends (Cli.main Cli.Cli_gps true response st) = Cli.Exit 0 ∨
   Cli.ends (Cli.main Cli.Cli_gps true response st) = Cli.Uncaught KeyError ∨
   Cli.ends (Cli.main Cli.Cli_gps true response st) = Cli.Uncaught TypeError ∨
   Cli.ends (Cli.main Cli.Cli_gps true response st) = Cli.Uncaught UnicodeEncodeError) ∧
  Cli.torn_down (Cli.main Cli.Cli_gps true response st) = [T_loop_stop; T_disconnect].
Proof.
  split; [|split; [|done]]; rewrite gps_ends.
  - destruct (truthy response); [|by split; [left|]].
    destruct (Cli.getitem response "data") as [d|e] eqn:Hd.
    + destruct d as [ | | | | | |fields];
        try (simpl; split; [done|intros [?|(? & ? & ?)]; done]).
      split.
      * intros He. right. exists fields. split; [done|].
        rewrite !field_shown.
        destruct (Cli.field (JObj fields) "latitude"); [|done].
        destruct (Cli.field (JObj fields) "longitude"); [|done].
        destruct (Cli.field (JObj fields) "altitude"); [|done].
        destruct (Cli.field (JObj fields) "satellites"); [|done].
        destruct (Cli.field (JObj fields) "valid"); [|done].
        eauto 10.
      * intros [?|(fields' & Hf & H1 & H2 & H3 & H4 & H5)]; [done|].
        injection Hf as <-.
        apply field_shown in H1 as [? ->], H2 as [? ->], H3 as [? ->], H4 as [? ->],
          H5 as [? ->]. done.
    + split; [done|]. intros [?|(? & ? & ?)]; done.
  - destruct (truthy response); [|by left].
    destruct (Cli.getitem response "data") as [d|e] eqn:Hd.
    + destruct (Cli.field d "latitude") as [?|e1] eqn:H1;
        [|apply field_raises in H1 as [->|[->| ->]]; eauto].
      destruct (Cli.field d "longitude") as [?|e2] eqn:H2;
        [|apply field_raises in H2 as [->|[->| ->]]; eauto].
      destruct (Cli.field d "altitude") as [?|e3] eqn:H3;
        [|apply field_raises in H3 as [->|[->| ->]]; eauto].
      destruct (Cli.field d "satellites") as [?|e4] eqn:H4;
        [|apply field_raises in H4 as [->|[->| ->]]; eauto].
      destruct (Cli.field d "valid") as [?|e5] eqn:H5;
        [|apply field_raises in H5 as [->|[->| ->]]; eauto].
      by left.
    + right. apply getitem_raises in Hd as [-> | ->]; eauto.
Qed.

(** A position whose latitude is a str with a surrogate: all five
    fields are there, and [print] raises on the first. *)
Example gps_surrogate :
  Cli.main Cli.Cli_gps true
    (JObj [("id", JStr "req-1000");
           ("data", JObj [("latitude", JStr (String (Ascii.ascii_of_nat 237)
                                               (String (Ascii.ascii_of_nat 160)
                                                  (String (Ascii.ascii_of_nat 128) ""))));
                          ("longitude", JInt 0); ("altitude", JInt 0);
                          ("satellites", JInt 0); ("valid", JBool false)])])
    Sample.ready
  = {| Cli.printed := [Cli.Text (Cli.nl +:+ "GPS Position:")];
       Cli.torn_down := [T_loop_stop; T_disconnect];
       Cli.ends := Cli.Uncaught UnicodeEncodeError |}.
Proof. reflexivity. Qed.

(** X14.  A response without an object as [data].  The wrapper
    returns a true response whose [data] is [null], or anything else
    that is not an object.  For the subcommands [gps], [logs],
    [reboot], [interval], and [config] when it sends something, a
    [TypeError] leaves [main], after [disconnect] has been called; for
    [stats] the value is printed as it is and [main] returns 0. *)
Theorem response_without_data (c : Cli.cli) (response data : json) (st : state) :
  truthy response = true → Cli.getitem response "data" = Ok data → is_object data = false →
  (indexes_data c = true →
   Cli.ends (Cli.main c true response st) = Cli.Uncaught TypeError ∧
   Cli.torn_down (Cli.main c true response st) = [T_loop_stop; T_disconnect]) ∧
  Cli.main Cli.Cli_stats true response st
    = {| Cli.printed := [Cli.Text (Cli.nl +:+ "Device Statistics:"); Cli.Dump data];
         Cli.torn_down := [T_loop_stop; T_disconnect];
         Cli.ends := Cli.Exit 0 |}.
Proof.
  intros Ht Hd Ho.
  assert (Hk : ∀ k, Cli.field data k = Raise TypeError) by (by destruct data).
  split.
  - intros Hc. split; [|by destruct c].
    destruct c; try discriminate Hc; unfold Cli.main; simpl;
      try (simpl in Hc; rewrite Hc); unfold Cli.report; rewrite Ht;
      unfold Cli.andthen, Cli.say; simpl; rewrite ?say_field_eq, Hd, Hk; done.
  - unfold Cli.main. simpl. unfold Cli.report. rewrite Ht.
    unfold Cli.andthen, Cli.say, Cli.eval. simpl. by rewrite Hd.
Qed.

Lemma response_without_data_witness :
  (indexes_data (Cli.Cli_reboot 5000) = true →
   Cli.ends (Cli.main (Cli.Cli_reboot 5000) true Sample.position' Sample.ready)
     = Cli.Uncaught TypeError ∧
   Cli.torn_down (Cli.main (Cli.Cli_reboot 5000) true Sample.position' Sample.ready)
     = [T_loop_stop; T_disconnect]) ∧
  Cli.main Cli.Cli_stats true Sample.position' Sample.ready
    = {| Cli.printed := [Cli.Text (Cli.nl +:+ "Device Statistics:"); Cli.Dump JNull];
         Cli.torn_down := [T_loop_stop; T_disconnect];
         Cli.ends := Cli.Exit 0 |}.
Proof.
  apply (response_without_data (Cli.Cli_reboot 5000) Sample.position' JNull Sample.ready);
    reflexivity.
Defined.

(** X15.  The options of the [config] subcommand.  An option is sent
    exactly when it was given and is not zero, or not the empty
    string: [--gps-interval 0] is dropped like an option that was not
    given.  When every option is dropped [main] calls no wrapper,
    prints nothing and returns 0; otherwise it calls [update_config]
    with an object holding the options that were kept. *)
Theorem config_options (g : option Z) (h : option string) (p : option Z) (a : option string)
    (response : json) (st : state) :
  (dict_get (Cli.build_config g h p a) "gps_interval"
     = match g with Some n => if n =? 0 then None else Some (JInt n) | None => None end) ∧
  (dict_get (Cli.build_config g h p a) "mqtt_host"
     = match h with Some s => if String.eqb s "" then None else Some (JStr s) | None => None end) ∧
  (dict_get (Cli.build_config g h p a) "mqtt_port"
     = match p with Some n => if n =? 0 then None else Some (JInt n) | None => None end) ∧
  (dict_get (Cli.build_config g h p a) "apn"
     = match a with Some s => if String.eqb s "" then None else Some (JStr s) | None => None end) ∧
  (Cli.requested (Cli.Cli_config g h p a) = None ↔
   unset_int g ∧ unset_str h ∧ unset_int p ∧ unset_str a) ∧
  (Cli.requested (Cli.Cli_config g h p a) = None ∨
   Cli.requested (Cli.Cli_config g h p a)
     = Some (Update_config (JObj (Cli.build_config g h p a)))) ∧
  (Cli.requested (Cli.Cli_config g h p a) = None →
   Cli.main (Cli.Cli_config g h p a) true response st
     = {| Cli.printed := []; Cli.torn_down := [T_loop_stop; T_disconnect];
          Cli.ends := Cli.Exit 0 |}).
Proof.
  assert (Hi : ∀ o, truthy (Cli.of_int o) = false ↔ unset_int o).
  { intros [n|]; simpl; unfold unset_int; [|by intuition].
    destruct (Z.eqb_spec n 0) as [->|Hn]; simpl; [by intuition|].
    split; [done|]. intros [?|?]; congruence. }
  assert (Hs : ∀ o, truthy (Cli.of_str o) = false ↔ unset_str o).
  { intros [s|]; simpl; unfold unset_str; [|by intuition].
    destruct (String.eqb_spec s "") as [->|Hn]; simpl; [by intuition|].
    split; [done|]. intros [?|?]; congruence. }
  assert (Hlast : Cli.requested (Cli.Cli_config g h p a) = None →
    Cli.main (Cli.Cli_config g h p a) true response st
    = {| Cli.printed := []; Cli.torn_down := [T_loop_stop; T_disconnect];
         Cli.ends := Cli.Exit 0 |}).
  { unfold Cli.main. cbv beta iota delta [negb]. unfold Cli.requested.
    by destruct (truthy (JObj (Cli.build_config g h p a))). }
  unfold Cli.requested, Cli.build_config.
  split; [|split; [|split; [|split; [|split; [split|split; [|done]]]]]].
  - destruct g as [n|], h, p, a; simpl; repeat case_match; simplify_eq; done.
  - destruct g as [n|], h as [s|], p, a; simpl; repeat case_match; simplify_eq; done.
  - destruct g as [n|], h as [s|], p as [m|], a; simpl; repeat case_match; simplify_eq; done.
  - destruct g as [n|], h as [s|], p as [m|], a as [t|]; simpl;
      repeat case_match; simplify_eq; done.
  - intros H.
    destruct (truthy (Cli.of_int g)) eqn:H1; [done|].
    destruct (truthy (Cli.of_str h)) eqn:H2; [done|].
    destruct (truthy (Cli.of_int p)) eqn:H3; [done|].
    destruct (truthy (Cli.of_str a)) eqn:H4; [done|].
    apply Hi in H1, H3. apply Hs in H2, H4. done.
  - intros (H1 & H2 & H3 & H4). apply Hi in H1, H3. apply Hs in H2, H4.
    by rewrite H1, H2, H3, H4.
  - destruct (truthy _); eauto.
Qed.

(** ** Before the CONNACK *)

Lemma unacknowledged_other c x :
  is_main x = false → no_ack x →
  connected (shared c) = false → match net c with N_subscribe _ => False | _ => True end →
  connected (shared (step c x)) = false ∧ wire (shared (step c x)) = wire (shared c) ∧
  match net (step c x) with N_subscribe _ => False | _ => True end.
Proof.
  intros Hmx Hx Hc Hn. destruct x; try discriminate Hmx.
  - rewrite step_recv. destruct (net c) eqn:Hnet; try (by rewrite ?Hnet). simpl.
    destruct (on_message_check_route msg (shared c)) as (st' & Hck & Hq & _ & Hw & _).
    rewrite Hck. simpl. rewrite Hq, Hw. repeat split; try done.
    by destruct (route _ msg) as [[??]|].
  - simpl. destruct (net c) eqn:Hnet; try (by rewrite ?Hnet). unfold on_connect_flag.
    simpl in Hx. by destruct (Z.eqb_spec rc 0).
  - simpl. destruct (net c) as [|k data|[|t todo]] eqn:Hnet; try done;
      repeat split; try done; by rewrite Hnet.
  - done.
Qed.

(** X16.  Nothing is sent before the CONNACK.  Only [_on_connect] with
    [rc = 0] sets [connected].  On a client whose flag is not set, as
    [__init__] leaves it, and as long as no CONNACK that accepts the
    connection arrives, under every schedule the flag stays unset, a
    call of [send_command] makes no call on the paho client, and after
    its first step it has returned [None]. *)
Theorem nothing_sent_before_connack (a : args) (st : state) (sched : list action) :
  connected st = false → Forall no_ack sched → (1 ≤ main_steps sched)%nat →
  connected (shared (run sched (calling a st))) = false ∧
  wire (shared (run sched (calling a st))) = wire st ∧
  returned (run sched (calling a st)) = Some JNull.
Proof.
  intros Hc Hsched Hsteps.
  assert (H1 : refusing a (wire st) 1 (calling a st)) by done.
  apply (run_ranked no_ack (refusing a (wire st))) with (sched := sched) in H1;
    [..|done|done].
  - destruct H1 as (? & ? & _ & Hm). repeat split; try done.
    unfold returned. by rewrite Hm.
  - intros n c x Hx Hmx (Hc' & Hw & Hn & Hm).
    destruct (unacknowledged_other c x Hmx Hx Hc' Hn) as (? & Hw' & ?).
    unfold refusing. rewrite step_other_main, Hw'; done.
  - intros n c (Hc' & Hw & Hn & Hm). destruct n as [|n]; [|done].
    unfold refusing. rewrite step_main_net. simpl. rewrite Hm. simpl. rewrite Hc'. done.
  - intros c (Hc' & Hw & Hn & Hm). unfold refusing. rewrite step_main_net. simpl.
    rewrite Hm. done.
Qed.

Lemma nothing_sent_before_connack_witness :
  connected
    (shared (run [A_connack 4; A_recv Sample.garbage; A_tick 9; A_main; A_main]
               (calling Sample.get_gps (init 0 true)))) = false ∧
  wire (shared (run [A_connack 4; A_recv Sample.garbage; A_tick 9; A_main; A_main]
                  (calling Sample.get_gps (init 0 true)))) = wire (init 0 true) ∧
  returned (run [A_connack 4; A_recv Sample.garbage; A_tick 9; A_main; A_main]
              (calling Sample.get_gps (init 0 true))) = Some JNull.
Proof.
  apply (nothing_sent_before_connack Sample.get_gps (init 0 true)
           [A_connack 4; A_recv Sample.garbage; A_tick 9; A_main; A_main]).
  - reflexivity.
  - repeat constructor; simpl; lia.
  - simpl; lia.
Defined.

Lemma step_reachable c x : reachable (shared (step c x)) = reachable (shared c).
Proof.
  destruct x.
  - simpl. destruct (main c) as [pc|a pc]; destruct pc; simpl;
      repeat (case_match; simplify_eq); done.
  - rewrite step_recv. destruct (net c); try done. simpl.
    destruct (on_message_check_route msg (shared c)) as (st' & Hck & _ & _ & _ & _ & Hr).
    by rewrite Hck.
  - simpl. destruct (net c); try done. unfold on_connect_flag. by destruct (rc =? 0).
  - simpl. by destruct (net c) as [|k data|[|t todo]].
  - done.
Qed.

Lemma reachable_run sched c : reachable (shared (run sched c)) = reachable (shared c).
Proof.
  revert c. induction sched as [|x sched IH]; intros c; [done|].
  rewrite run_cons, IH. apply step_reachable.
Qed.

Lemma main_connect_run sched c :
  (∃ pc, main c = In_connect pc) → ∃ pc, main (run sched c) = In_connect pc.
Proof.
  intros H. apply (run_invariant (λ _, True) (λ c, ∃ pc, main c = In_connect pc));
    [|by apply Forall_forall|done].
  intros c' x _ [pc Hm]. by eapply main_connect_step.
Qed.

Lemma succeeding_other n c x : is_main x = false → succeeding n c → succeeding n (step c x).
Proof.
  intros Hx [Hc Hm]. split; [by apply step_connected|].
  by rewrite step_other_main, step_reachable.
Qed.

Lemma succeeding_down n c : succeeding (S n) c → succeeding n (step c A_main).
Proof.
  intros [Hc Hm]. unfold succeeding.
  destruct n as [|[|[|[|n]]]]; try done; simpl.
  - rewrite Hm. simpl. by rewrite Hc.
  - destruct Hm as [t Hm]. rewrite Hm. simpl. by rewrite Hc.
  - destruct Hm as [Hm|[t Hm]]; rewrite Hm; simpl; (split; [done|]); by eexists.
  - destruct Hm as [Hm Hr]. rewrite Hm. simpl. rewrite Hr. simpl. split; [done|]. by left.
Qed.

Lemma succeeding_zero c : succeeding 0 c → succeeding 0 (step c A_main).
Proof. intros [Hc Hm]. unfold succeeding. simpl. by rewrite Hm. Qed.

(** X17.  [connect] succeeds once the flag is set.  The socket can be
    opened and, at some point at which [connect] has not returned yet,
    [_on_connect] has set the flag: then under every schedule four more
    steps of [connect] are enough for it to have returned [True]. *)
Theorem connect_succeeds (st : state) (s1 s2 : list action) :
  reachable st = true →
  connected (shared (run s1 (connecting st))) = true →
  returned (run s1 (connecting st)) = None →
  (4 ≤ main_steps s2)%nat →
  returned (run (s1 ++ s2) (connecting st)) = Some (JBool true).
Proof.
  intros Hr Hc Hret Hsteps.
  destruct (main_connect_run s1 (connecting st)) as [pc Hm]; [by eexists|].
  assert (Hn : ∃ n, (n ≤ 4)%nat ∧ succeeding n (run s1 (connecting st))).
  { unfold returned in Hret. rewrite Hm in Hret. unfold succeeding. rewrite Hm.
    destruct pc as [| |t|t| |b]; try done.
    - exists 4%nat. repeat split; try done. by rewrite reachable_run.
    - exists 3%nat. repeat split; try done; [lia|by left].
    - exists 2%nat. repeat split; try done; [lia|by eexists].
    - exists 3%nat. repeat split; try done; [lia|right; by eexists].
    - exists 1%nat. repeat split; try done; lia. }
  destruct Hn as (n & Hn & Hs).
  apply (run_ranked (λ _, True) succeeding) with (sched := s2) in Hs;
    [..|by apply Forall_forall|lia].
  - rewrite <- run_app in Hs. destruct Hs as [_ Hm']. unfold returned. by rewrite Hm'.
  - intros. by apply succeeding_other.
  - intros. by apply succeeding_down.
  - apply succeeding_zero.
Qed.

Lemma connect_succeeds_witness :
  returned (run ([A_main; A_main; A_main; A_connack 0] ++ [A_net; A_main; A_main; A_main; A_main])
              (connecting (init 0 true))) = Some (JBool true).
Proof.
  apply (connect_succeeds (init 0 true) [A_main; A_main; A_main; A_connack 0]
           [A_net; A_main; A_main; A_main; A_main]).
  - reflexivity.
  - vm_compute; reflexivity.
  - vm_compute; reflexivity.
  - simpl; lia.
Defined.

(** ** The timeout is not reported early *)

Lemma on_message_check_lines msg st :
  ∃ ls, console (on_message_check msg st).1 = console st ++ ls ∧
        forallb (λ l, negb (is_timeout l)) ls = true.
Proof.
  unfold on_message_check, on_message_body, bind, lift, modify, get, ret,
    contains_id, getitem_id, pending_contains.
  destruct (decoded msg) as [data|e]; simpl;
    repeat (case_match; simpl in *; simplify_eq);
    first [ by exists []; simpl; rewrite ?app_nil_r
          | eexists; rewrite <- ?app_assoc; simpl; split; [reflexivity|done] ].
Qed.

Lemma step_other_lines c x :
  is_main x = false →
  ∃ ls, console (shared (step c x)) = console (shared c) ++ ls ∧
        forallb (λ l, negb (is_timeout l)) ls = true.
Proof.
  intros Hx. destruct x; try discriminate Hx.
  - rewrite step_recv. destruct (net c); try (by exists []; rewrite app_nil_r).
    simpl. apply on_message_check_lines.
  - simpl. destruct (net c); try (by exists []; rewrite app_nil_r).
    unfold on_connect_flag. destruct (rc =? 0); simpl; by eexists [_].
  - simpl. destruct (net c) as [|k data|[|t todo]]; simpl;
      first [ by exists []; rewrite app_nil_r | by eexists [_] ].
  - by exists []; rewrite app_nil_r.
Qed.

Lemma no_timeout_in (ls : list line) rid :
  forallb (λ l, negb (is_timeout l)) ls = true → L_timeout rid ∉ ls.
Proof.
  intros H Hin. rewrite forallb_forall in H.
  apply list_elem_of_In in Hin. by apply H in Hin.
Qed.

Lemma send_command_step_lines a pc st :
  ∃ ls, console (send_command_step a pc st).1 = console st ++ ls ∧
        (forallb (λ l, negb (is_timeout l)) ls = true ∨ ∃ rid, pc = SC_report rid).
Proof.
  destruct pc; simpl; repeat (case_match; simplify_eq); simpl;
    first [ by exists []; rewrite app_nil_r; split; [|left]
          | eexists [_]; split; [done|]; by left
          | eexists [_]; split; [done|]; right; by eexists ].
Qed.

Lemma on_time_main a t0 pc st :
  t0 ≤ clock st → on_time a t0 pc st →
  on_time a t0 (send_command_step a pc st).2 (send_command_step a pc st).1.
Proof.
  intros Ht H. destruct pc; simpl in *; repeat (case_match; simplify_eq); simpl; try done;
    try match goal with
        | Hw : still_waiting _ _ _ = false |- _ => apply still_waiting_false in Hw
        end;
    lia.
Qed.

Lemma send_command_step_clock a pc st : clock st ≤ clock (send_command_step a pc st).1.
Proof.
  destruct pc; simpl; repeat (case_match; simplify_eq); simpl; unfold poll_interval; lia.
Qed.

Lemma punctual_step a t0 n0 c x : punctual a t0 n0 c → punctual a t0 n0 (step c x).
Proof.
  intros (Ht & Hn & Hold & pc & Hm & Hpc).
  assert (Hgrow : ∀ c' ls pc',
    clock (shared c) ≤ clock (shared c') →
    console (shared c') = console (shared c) ++ ls →
    ((∃ rid, L_timeout rid ∈ ls) → t0 + timeout a ≤ clock (shared c')) →
    main c' = In_send a pc' → on_time a t0 pc' (shared c') →
    punctual a t0 n0 c').
  { intros c' ls pc' Hclock Hcons Hnew Hm' Hpc'.
    split; [lia|]. split; [rewrite Hcons, length_app; lia|]. split; [|by exists pc'].
    intros [rid Hin]. rewrite Hcons, drop_app_le in Hin by done.
    apply elem_of_app in Hin as [Hin|Hin].
    - assert (t0 + timeout a ≤ clock (shared c)) by (apply Hold; by exists rid). lia.
    - apply Hnew. by exists rid. }
  destruct (is_main x) eqn:Hx.
  - destruct x; try discriminate Hx.
    destruct (send_command_step_lines a pc (shared c)) as (ls & Hcons & Hls).
    pose proof (on_time_main a t0 pc (shared c) Ht Hpc) as Hnext.
    pose proof (send_command_step_clock a pc (shared c)) as Hclock.
    apply (Hgrow _ ls (send_command_step a pc (shared c)).2);
      simpl; rewrite Hm; destruct (send_command_step a pc (shared c)) as [st' pc'] eqn:Hs;
      simpl in *; try done.
    intros [rid Hin]. destruct Hls as [Hls|[rid' ->]].
    + by apply no_timeout_in in Hin.
    + simpl in Hs. injection Hs as <- <-. simpl in *. done.
  - destruct (step_other_lines c x Hx) as (ls & Hcons & Hls).
    apply (Hgrow _ ls pc); try done.
    + apply step_clock.
    + intros [rid Hin]. by apply no_timeout_in in Hin.
    + by rewrite step_other_main.
    + pose proof (step_clock c x). destruct pc; simpl in *; try done; lia.
Qed.

(** X18.  The timeout is not reported early.  Under every schedule, if
    a call has printed its [[TIMEOUT] No response received] line, then
    at least its [timeout] has passed on the clock since the call was
    made. *)
Theorem send_command_timeout_not_early (a : args) (st : state) (sched : list action)
    (rid : string) :
  L_timeout rid ∈ drop (length (console st)) (console (shared (run sched (calling a st)))) →
  clock st + timeout a ≤ clock (shared (run sched (calling a st))).
Proof.
  intros Hin.
  assert (Hp : punctual a (clock st) (length (console st)) (run sched (calling a st))).
  { apply (run_invariant (λ _, True)); [intros; by apply punctual_step| |].
    - by apply Forall_forall.
    - repeat split; try done.
      + simpl. rewrite drop_all. intros [? H]. by apply elem_of_nil in H.
      + by exists SC_entry. }
  destruct Hp as (_ & _ & Hold & _). apply Hold. by exists rid.
Qed.

Lemma send_command_timeout_not_early_witness :
  clock Sample.ready + timeout Sample.get_gps
  ≤ clock (shared (run Runs.in_vain (calling Sample.get_gps Sample.ready))).
Proof.
  apply (send_command_timeout_not_early Sample.get_gps Sample.ready Runs.in_vain "req-1000").
  vm_compute. apply list_elem_of_In. right. left. reflexivity.
Defined.

(** * The patch of the INA226 calls *)

Lemma append_cons ch (a b : string) : String ch a +:+ b = String ch (a +:+ b).
Proof. done. Qed.

Lemma append_nil (b : string) : "" +:+ b = b.
Proof. done. Qed.

Lemma append_assoc (a b c : string) : (a +:+ b) +:+ c = a +:+ (b +:+ c).
Proof.
  induction a as [|ch a IH]; [done|]. rewrite !append_cons. by f_equal.
Qed.

Lemma prefix_agree p n t : String.prefix p (n +:+ t) = true → Patch.agree p n = true.
Proof.
  revert n. induction p as [|a p IH]; intros [|b n]; simpl; try done.
  destruct (Ascii.ascii_dec a b) as [->|]; [|done].
  rewrite Ascii.eqb_refl. apply IH.
Qed.

Lemma agree_app p n t : Patch.agree p (n +:+ t) = true → Patch.agree p n = true.
Proof.
  revert n. induction p as [|a p IH]; intros [|b n]; simpl; try done.
  intros [-> H]%andb_true_iff. by rewrite (IH _ H).
Qed.

(** An occurrence of [p] in [r ++ t] lies in [t]. *)
Lemma occurs_clear_left p r t :
  Patch.clear_left p r = true → Patch.occurs p (r +:+ t) = Patch.occurs p t.
Proof.
  induction r as [|b r IH]; [done|]. intros [Ha Hr]%andb_true_iff.
  change (String b r +:+ t) with (String b (r +:+ t)).
  cbn [Patch.occurs]. rewrite (IH Hr).
  destruct (String.prefix p (String b (r +:+ t))) eqn:Hp; [|done].
  apply (prefix_agree p (String b r) t) in Hp. by rewrite Hp in Ha.
Qed.

(** If [p] begins [w ++ r ++ x] it begins [w ++ y] for every [y]: it
    ends inside [w]. *)
Lemma prefix_clear_right p r w x y :
  Patch.clear_right p r = true →
  String.prefix p (w +:+ r +:+ x) = true → String.prefix p (w +:+ y) = true.
Proof.
  revert p. induction w as [|c w IH]; intros [|a p] Hc Hp.
  - by destruct y.
  - cbn [Patch.clear_right] in Hc. apply andb_true_iff in Hc as [Ha _].
    apply (prefix_agree _ r x) in Hp. by rewrite Hp in Ha.
  - done.
  - cbn [Patch.clear_right] in Hc. apply andb_true_iff in Hc as [_ Hr].
    simpl in *. destruct (Ascii.ascii_dec a c); [|done]. by apply IH.
Qed.

Lemma prefix_replace p old new w t :
  Patch.clear_right p new = true →
  String.prefix p (w +:+ Patch.replace_from old new 0 t) = true →
  String.prefix p (w +:+ t) = true.
Proof.
  intros Hr. revert w. induction t as [|ch t IH]; intros w; [done|].
  cbn [Patch.replace_from]. destruct (String.prefix old (String ch t)).
  - by apply prefix_clear_right.
  - intros Hp. specialize (IH (w +:+ String ch "")).
    rewrite !append_assoc in IH. by apply IH.
Qed.

Lemma occurs_tail p ch s : Patch.occurs p (String ch s) = false → Patch.occurs p s = false.
Proof. cbn [Patch.occurs]. by intros [_ H]%orb_false_iff. Qed.

Lemma occurs_head p s : Patch.occurs p s = false → String.prefix p s = false.
Proof. destruct s; cbn [Patch.occurs]; by intros [H _]%orb_false_iff. Qed.

(** [replace] brings no occurrence of [p] into a text that had none. *)
Lemma replace_keeps_absent p old new :
  Patch.clear_left p new = true → Patch.clear_right p new = true →
  ∀ s k, Patch.occurs p s = false → Patch.occurs p (Patch.replace_from old new k s) = false.
Proof.
  intros Hl Hr. induction s as [|ch s IH]; intros k Hs; [by destruct k|].
  pose proof (occurs_tail _ _ _ Hs) as Hs'.
  cbn [Patch.replace_from]. destruct k as [|k]; [|by apply IH].
  destruct (String.prefix old (String ch s)).
  - rewrite occurs_clear_left by done. by apply IH.
  - cbn [Patch.occurs]. rewrite (IH 0%nat Hs'), orb_false_r.
    destruct (String.prefix p (String ch (Patch.replace_from old new 0 s))) eqn:Hp; [|done].
    apply (prefix_replace p old new (String ch "") s Hr) in Hp.
    apply occurs_head in Hs. rewrite append_cons, append_nil in Hp. congruence.
Qed.

(** After [replace], [old] does not occur. *)
Lemma replace_removes old new :
  old ≠ "" → Patch.clear_left old new = true → Patch.clear_right old new = true →
  ∀ s k, Patch.occurs old (Patch.replace_from old new k s) = false.
Proof.
  intros Ho Hl Hr. induction s as [|ch s IH]; intros k.
  - by destruct old.
  - cbn [Patch.replace_from]. destruct k as [|k]; [|by apply IH].
    destruct (String.prefix old (String ch s)) eqn:Hpre.
    + rewrite occurs_clear_left by done. by apply IH.
    + cbn [Patch.occurs]. rewrite (IH 0%nat), orb_false_r.
      destruct (String.prefix old (String ch (Patch.replace_from old new 0 s))) eqn:Hp;
        [|done].
      apply (prefix_replace old old new (String ch "") s Hr) in Hp.
      rewrite append_cons, append_nil in Hp. congruence.
Qed.

(** Without an occurrence of [old], [replace] changes nothing. *)
Lemma replace_absent old new s :
  Patch.occurs old s = false → Patch.replace old new s = s.
Proof.
  unfold Patch.replace. induction s as [|ch s IH]; [done|]. intros Hs.
  cbn [Patch.replace_from]. rewrite (occurs_head _ _ Hs).
  by rewrite (IH (occurs_tail _ _ _ Hs)).
Qed.

Lemma length_append (a b : string) :
  String.length (a +:+ b) = (String.length a + String.length b)%nat.
Proof. induction a as [|ch a IH]; [done|]. rewrite append_cons. simpl. by rewrite IH. Qed.

(** [replace] does not shorten a text when [new] is at least as long
    as [old]. *)
Lemma replace_length old new :
  (1 ≤ String.length old ≤ String.length new)%nat →
  ∀ s k, (String.length s ≤ String.length (Patch.replace_from old new k s) + k)%nat.
Proof.
  intros Hlen. induction s as [|ch s IH]; intros k; [simpl; lia|].
  cbn [Patch.replace_from]. destruct k as [|k].
  - destruct (String.prefix old (String ch s)).
    + rewrite length_append. specialize (IH (String.length old - 1)%nat). simpl. lia.
    + specialize (IH 0%nat). simpl. lia.
  - specialize (IH k). simpl. lia.
Qed.

(** It lengthens a text in which [old] occurs when [new] is longer. *)
Lemma replace_longer old new :
  (1 ≤ String.length old < String.length new)%nat →
  ∀ s, Patch.occurs old s = true →
       (String.length s < String.length (Patch.replace old new s))%nat.
Proof.
  intros Hlen. unfold Patch.replace. induction s as [|ch s IH].
  - destruct old; simpl in *; [lia|done].
  - cbn [Patch.occurs Patch.replace_from].
    destruct (String.prefix old (String ch s)).
    + intros _. rewrite length_append.
      pose proof (replace_length old new ltac:(lia) s (String.length old - 1)%nat).
      simpl. lia.
    + simpl. intros H. specialize (IH H). lia.
Qed.

Lemma patch_length (content : string) :
  (String.length content ≤ String.length (Patch.patch content))%nat.
Proof.
  unfold Patch.patch, Patch.replace.
  pose proof (replace_length Patch.old_begin Patch.new_begin
                ltac:(simpl; lia) content 0%nat).
  pose proof (replace_length Patch.old_pins Patch.new_pins ltac:(simpl; lia)
                (Patch.replace_from Patch.old_begin Patch.new_begin 0 content) 0%nat).
  lia.
Qed.

Lemma patch_clean (content : string) :
  Patch.occurs Patch.old_begin (Patch.patch content) = false ∧
  Patch.occurs Patch.old_pins (Patch.patch content) = false.
Proof.
  unfold Patch.patch, Patch.replace. split.
  - apply replace_keeps_absent; [done|done|]. by apply replace_removes.
  - by apply replace_removes.
Qed.

(** The test of line 55 finds the content changed exactly when one of
    the two old calls occurs in it. *)
Lemma changed_occurs (content : string) :
  Patch.changed content
  = Patch.occurs Patch.old_begin content || Patch.occurs Patch.old_pins content.
Proof.
  assert (Hb : ∀ s, (String.length s
                     ≤ String.length (Patch.replace Patch.old_begin Patch.new_begin s))%nat).
  { intros s. pose proof (replace_length Patch.old_begin Patch.new_begin
                            ltac:(simpl; lia) s 0%nat). unfold Patch.replace. lia. }
  assert (Hp : ∀ s, (String.length s
                     ≤ String.length (Patch.replace Patch.old_pins Patch.new_pins s))%nat).
  { intros s. pose proof (replace_length Patch.old_pins Patch.new_pins
                            ltac:(simpl; lia) s 0%nat). unfold Patch.replace. lia. }
  unfold Patch.changed.
  destruct (Patch.occurs Patch.old_begin content) eqn:H1.
  - simpl. apply negb_true_iff, String.eqb_neq. intros Heq.
    apply (f_equal String.length) in Heq. unfold Patch.patch in Heq.
    pose proof (replace_longer Patch.old_begin Patch.new_begin ltac:(simpl; lia) _ H1).
    specialize (Hp (Patch.replace Patch.old_begin Patch.new_begin content)). lia.
  - simpl. unfold Patch.patch. rewrite (replace_absent _ _ _ H1).
    destruct (Patch.occurs Patch.old_pins content) eqn:H2.
    + apply negb_true_iff, String.eqb_neq. intros Heq.
      apply (f_equal String.length) in Heq.
      pose proof (replace_longer Patch.old_pins Patch.new_pins ltac:(simpl; lia) _ H2). lia.
    + rewrite (replace_absent _ _ _ H2). by rewrite String.eqb_refl.
Qed.

Lemma changed_patch (content : string) : Patch.changed (Patch.patch content) = false.
Proof.
  rewrite changed_occurs. by destruct (patch_clean content) as [-> ->].
Qed.

(** One turn of the loop, by the old calls of the file. *)
Lemma patch_file_eq (f : Patch.file) :
  Patch.patch_file f
  = if Patch.outdated f && Patch.writable f
    then (Patch.File (Patch.path f) (Patch.patch <$> Patch.content f) true,
          1%nat, [Patch.R_patched (Patch.path f)])
    else (f, 0%nat, if Patch.failing f then [Patch.R_error (Patch.path f)] else []).
Proof.
  unfold Patch.patch_file, Patch.outdated, Patch.failing.
  destruct f as [p [c|] w]; simpl; [|done].
  rewrite changed_occurs.
  destruct (Patch.occurs Patch.old_begin c || Patch.occurs Patch.old_pins c), w; done.
Qed.

(** The file that a turn of the loop leaves has no old call, and fails
    as it did. *)
Lemma patch_file_after (f : Patch.file) :
  Patch.outdated (Patch.patch_file f).1.1 && Patch.writable (Patch.patch_file f).1.1 = false ∧
  Patch.failing (Patch.patch_file f).1.1 = Patch.failing f ∧
  Patch.path (Patch.patch_file f).1.1 = Patch.path f.
Proof.
  rewrite patch_file_eq.
  destruct (Patch.outdated f && Patch.writable f) eqn:H; [|done].
  destruct f as [p [c|] w]; unfold Patch.outdated, Patch.failing in *; simpl in *; [|done].
  destruct (patch_clean c) as [-> ->]. apply andb_true_iff in H as [-> ->]. done.
Qed.

Lemma patch_files_eq (fs : list Patch.file) (n : nat) :
  Patch.patch_files fs n
  = (map (λ f, (Patch.patch_file f).1.1) fs,
     (n + length (filter (λ f, Patch.outdated f && Patch.writable f = true) fs))%nat,
     concat (map (λ f, (Patch.patch_file f).2) fs)).
Proof.
  revert n. induction fs as [|f fs IH]; intros n; simpl.
  - f_equal. f_equal. lia.
  - destruct (Patch.patch_file f) as [[f' k] out] eqn:Hf. rewrite IH. simpl.
    rewrite patch_file_eq in Hf. rewrite filter_cons.
    destruct (Patch.outdated f && Patch.writable f) eqn:H.
    + inversion Hf; subst. rewrite decide_True by done. simpl. do 2 f_equal. lia.
    + inversion Hf; subst. rewrite decide_False by done. simpl. do 2 f_equal. lia.
Qed.

(** X19.  The patch leaves no old call.  For every content of a file,
    after the two replacements of lines 43 to 52 neither
    [ina226.begin();] nor [ina226.begin(I2C_SDA, I2C_SCL);] occurs in
    it: the replacements do not produce the texts they replace, and the
    second does not bring back what the first removed.  The content
    never gets shorter, and patching it again changes nothing. *)
Theorem patch_removes_old_calls (content : string) :
  Patch.occurs Patch.old_begin (Patch.patch content) = false ∧
  Patch.occurs Patch.old_pins (Patch.patch content) = false ∧
  (String.length content ≤ String.length (Patch.patch content))%nat ∧
  Patch.patch (Patch.patch content) = Patch.patch content.
Proof.
  destruct (patch_clean content) as [H1 H2]. split; [done|]. split; [done|].
  split; [apply patch_length|].
  pose proof (changed_patch content) as H. unfold Patch.changed in H.
  apply negb_false_iff, String.eqb_eq in H. done.
Qed.

(** X20.  The files that are written.  A run of the script over the
    files of the library adds to [patches_applied] once for each
    writable file in which one of the two old calls occurs, whatever
    else is in the files, and its last line tells that number, or that
    no file needed updating when there is none. *)
Theorem patches_applied_counts (files : list Patch.file) :
  let n := length (filter (λ f, Patch.outdated f && Patch.writable f = true) files) in
  (Patch.patch_files files 0).1.2 = n ∧
  last (Patch.patch_m5stamplc_ina226 (Some files)).2
  = Some (if (0 <? n)%nat then Patch.R_updated n else Patch.R_none).
Proof.
  intros n. unfold Patch.patch_m5stamplc_ina226. rewrite patch_files_eq. simpl.
  split; [done|]. by rewrite last_snoc.
Qed.

(** X21.  The second run updates nothing.  Over the files that a run
    of the script has left, another run writes no file and leaves
    every file as it is; it prints an error for each file that cannot
    be read, or that has an old call and cannot be written, and then
    that no file needed updating. *)
Theorem second_run_updates_nothing (lib : option (list Patch.file)) :
  let after := (Patch.patch_m5stamplc_ina226 lib).1 in
  Patch.patch_m5stamplc_ina226 after
  = (after,
     match after with
     | Some files =>
         map Patch.R_error (map Patch.path (filter (λ f, Patch.failing f = true) files))
         ++ [Patch.R_none]
     | None => [Patch.R_not_found]
     end).
Proof.
  destruct lib as [fs|]; [|done].
  unfold Patch.patch_m5stamplc_ina226. rewrite patch_files_eq. simpl.
  rewrite patch_files_eq. simpl.
  assert (H : ∀ fs : list Patch.file,
    let fs' := map (λ f, (Patch.patch_file f).1.1) fs in
    map (λ f, (Patch.patch_file f).1.1) fs' = fs' ∧
    length (filter (λ f, Patch.outdated f && Patch.writable f = true) fs') = 0%nat ∧
    concat (map (λ f, (Patch.patch_file f).2) fs')
    = map Patch.R_error (map Patch.path (filter (λ f, Patch.failing f = true) fs'))).
  { clear fs. induction fs as [|f fs IH]; [done|]. simpl in *.
    destruct IH as (IH1 & IH2 & IH3).
    destruct (patch_file_after f) as (Ha & Hb & Hc).
    rewrite !filter_cons, IH1, IH3.
    rewrite (patch_file_eq (Patch.patch_file f).1.1), Ha. simpl.
    split; [done|]. split; [done|].
    destruct (Patch.failing (Patch.patch_file f).1.1) eqn:Hfail.
    - by rewrite decide_True.
    - by rewrite decide_False. }
  destruct (H fs) as (H1 & H2 & H3). simpl in *. rewrite H1, H2, H3. done.
Qed.

(** The patch at work on a few lines. *)
Example patch_sample :
  Patch.patch "if (!ina226.begin()) {} ina226.begin(); ina226.begin(I2C_SDA, I2C_SCL);"
  = "if (!ina226.begin()) {} ina226.begin(&Wire); ina226.begin(&Wire, I2C_SDA, I2C_SCL);".
Proof. reflexivity. Qed.
